(** * PythonParser: the line-based scanner of server/services/python-parser.ts

    A shallow embedding of [PythonParser.parseFunctions],
    [PythonParser.getIndentLevel], [PythonParser.validatePythonSyntax] and
    [PythonParser.extractCodeWithoutDocstrings], followed by the properties
    the design document states about them.

    Modelling conventions.
    - A JavaScript string is the list of its code units.  The development
      covers the code units below 256, written as [ascii].
    - Line numbers and indentation levels are [nat]; the three balance
      counters can go negative and are [Z].
    - A [for] or [while] loop that walks [lines] from some index onwards is
      a structural [Fixpoint] on the remaining suffix of [lines], carrying
      the index where the code uses it.  [lines] is never mutated. *)

From Stdlib Require Import List Ascii String ZArith Arith Bool Lia.
From Stdlib Require Import DecimalString.
From Stdlib Require Import Permutation Sorted.
Import ListNotations.

Local Open Scope char_scope.
Local Open Scope nat_scope.
Local Open Scope list_scope.

(** ** JavaScript string primitives used by the parser *)

Module JS.

Definition str := list ascii.

(** A string literal of the source. *)
Definition lit (s : string) : str := list_ascii_of_string s.

(** The line feed and the double quote. *)
Definition nl : ascii := "010".
Definition dq : ascii := "034".

(** White space as [String.prototype.trim] and the regular expression
    class [\s] know it (WhiteSpace and LineTerminator): TAB, LF, VT, FF, CR,
    SP and NBSP are the ones below 256. *)
Definition is_space (c : ascii) : bool :=
  let n := nat_of_ascii c in
  ((9 <=? n) && (n <=? 13)) || (n =? 32) || (n =? 160).

Fixpoint trimStart (s : str) : str :=
  match s with
  | c :: s' => if is_space c then trimStart s' else s
  | [] => []
  end.

Definition trimEnd (s : str) : str := rev (trimStart (rev s)).

Definition trim (s : str) : str := trimEnd (trimStart s).

Definition isEmpty (s : str) : bool :=
  match s with [] => true | _ :: _ => false end.

(** [s.startsWith(p)] *)
Fixpoint startsWith (s p : str) : bool :=
  match p, s with
  | [], _ => true
  | a :: p', b :: s' => Ascii.eqb a b && startsWith s' p'
  | _ :: _, [] => false
  end.

(** [s.endsWith(p)] *)
Definition endsWith (s p : str) : bool := startsWith (rev s) (rev p).

(** [s.includes(c)] for a one-character pattern. *)
Definition includes (s : str) (c : ascii) : bool := existsb (Ascii.eqb c) s.

(** [s.replace(c, '')] for a one-character string pattern: only the first
    occurrence is replaced. *)
Fixpoint replaceFirst (c : ascii) (s : str) : str :=
  match s with
  | [] => []
  | a :: s' => if Ascii.eqb a c then s' else a :: replaceFirst c s'
  end.

(** [(s.match(/c/g) || []).length] for a one-character pattern. *)
Definition countChar (c : ascii) (s : str) : Z :=
  Z.of_nat (count_occ ascii_dec s c).

(** [s.split(sep)] for a one-character separator; the result is never
    empty. *)
Fixpoint split (sep : ascii) (s : str) : list str :=
  match s with
  | [] => [[]]
  | c :: s' =>
      if Ascii.eqb c sep then [] :: split sep s'
      else match split sep s' with
           | l :: ls => (c :: l) :: ls
           | [] => [[c]]
           end
  end.

(** [ls.join(sep)] *)
Fixpoint join (sep : ascii) (ls : list str) : str :=
  match ls with
  | [] => []
  | l :: ls' =>
      match ls' with
      | [] => l
      | _ :: _ => l ++ sep :: join sep ls'
      end
  end.

(** Decimal rendering of a number inside a template literal. *)
Definition showNat (n : nat) : str :=
  lit (NilEmpty.string_of_uint (Nat.to_uint n)).

Fixpoint takeWhile (p : ascii -> bool) (s : str) : str :=
  match s with
  | c :: s' => if p c then c :: takeWhile p s' else []
  | [] => []
  end.

Fixpoint dropWhile (p : ascii -> bool) (s : str) : str :=
  match s with
  | c :: s' => if p c then dropWhile p s' else s
  | [] => []
  end.

(** [t] occurs in [s] as a contiguous substring. *)
Definition substring_of (t s : str) : Prop :=
  exists pre post, s = pre ++ t ++ post.

End JS.

Import JS.

(** ** The parser *)

Module PythonParser.

Record PythonFunction := mkPythonFunction {
  name : str;
  startLine : nat;
  endLine : nat;
  signature : str;
  hasDocstring : bool
}.

(** [getIndentLevel]: the length of the leading run of [\s] characters
    that the anchored pattern of line 263 captures. *)
Fixpoint getIndentLevel (line : str) : nat :=
  match line with
  | c :: line' => if is_space c then S (getIndentLevel line') else 0
  | [] => 0
  end.

Definition isLower (c : ascii) : bool :=
  let n := nat_of_ascii c in (97 <=? n) && (n <=? 122).
Definition isUpper (c : ascii) : bool :=
  let n := nat_of_ascii c in (65 <=? n) && (n <=? 90).
Definition isDigit (c : ascii) : bool :=
  let n := nat_of_ascii c in (48 <=? n) && (n <=? 57).

(** [[a-zA-Z_]] and [[a-zA-Z0-9_]] *)
Definition isIdentStart (c : ascii) : bool :=
  isLower c || isUpper c || Ascii.eqb c "_".
Definition isIdentChar (c : ascii) : bool :=
  isIdentStart c || isDigit c.

Definition headIs (p : ascii -> bool) (s : str) : bool :=
  match s with
  | c :: _ => p c
  | [] => false
  end.

(** The pattern of line 200: [def], then [\s+], then the captured
    identifier (one of [a-zA-Z_], then any number of [a-zA-Z0-9_]), then
    [\s*] and an opening parenthesis, anchored at the start of the line.
    The result is capture group 1.  The three greedy quantifiers never
    need to give characters back: what follows [\s+] cannot start with
    white space, what follows the identifier class cannot start with an
    identifier character, and what follows [\s*] is an opening
    parenthesis.  So the longest run at each quantifier is the only
    candidate match. *)
Definition matchDef (line : str) : option str :=
  let r := skipn 3 line in
  let r1 := dropWhile is_space r in
  let r2 := dropWhile isIdentChar r1 in
  if startsWith line (lit "def")
     && headIs is_space r
     && headIs isIdentStart r1
     && headIs (Ascii.eqb "(") (dropWhile is_space r2)
  then Some (takeWhile isIdentChar r1)
  else None.

Definition tripleDouble : str := [dq; dq; dq].
Definition tripleSingle : str := lit "'''".

(** The test of lines 213 and 373: the trimmed line opens with a
    triple-quote delimiter. *)
Definition startsTriple (trimmed : str) : bool :=
  startsWith trimmed tripleDouble || startsWith trimmed tripleSingle.

(** Lines 209-216: the docstring check on [lines[i + 1]], where [rest] is
    [lines] from index [i + 1] on. *)
Definition docstringAfter (rest : list str) : bool :=
  match rest with
  | next :: _ => startsTriple (trim next)
  | [] => false
  end.

(** The stop test of lines 226-229 on a non-blank line. *)
Definition endsBody (indentLevel : nat) (currentLine : str) : bool :=
  (getIndentLevel currentLine <=? indentLevel)%nat
  && (startsWith (trim currentLine) (lit "def ")
      || startsWith (trim currentLine) (lit "class ")
      || startsWith (trim currentLine) (lit "if __name__")).

(** Lines 219-234: the body-end loop; [rest] is [lines] from index [j] on and
    [endLine] the current value of the variable. *)
Fixpoint scanEnd (indentLevel j : nat) (rest : list str) (endLine : nat)
  : nat :=
  match rest with
  | [] => endLine
  | currentLine :: rest' =>
      if isEmpty (trim currentLine) then
        scanEnd indentLevel (S j) rest' endLine
      else if endsBody indentLevel currentLine then j
      else scanEnd indentLevel (S j) rest' (S j)
  end.

Definition parenDelta (s : str) : Z := countChar "(" s - countChar ")" s.

(** The loop condition of line 242, without the bound on [j]. *)
Definition needsMore (sig : str) (parenCount : Z) : bool :=
  (0 <? parenCount)%Z || negb (includes sig ":").

(** Lines 242-247: the reassembly loop; [rest] is [lines] from index [j]
    on.  Returns the final [signature] and [parenCount]. *)
Fixpoint reassemble (rest : list str) (sig : str) (parenCount : Z)
  : str * Z :=
  match rest with
  | [] => (sig, parenCount)
  | l :: rest' =>
      if needsMore sig parenCount then
        let nextLine := trim l in
        reassemble rest' (sig ++ " " :: nextLine)
                   (parenCount + parenDelta nextLine)
      else (sig, parenCount)
  end.

(** Lines 237-239 and 242-247. *)
Definition fullSignature (raw : str) (rest : list str) : str * Z :=
  reassemble rest (trim raw) (parenDelta (trim raw)).

(** Lines 202-255: the descriptor pushed for a matched line [raw] at
    0-indexed position [i], followed in [lines] by [rest]. *)
Definition describe (i : nat) (functionName raw : str) (rest : list str)
  : PythonFunction :=
  let startLine := S i in
  {| name := functionName;
     startLine := startLine;
     endLine := scanEnd (getIndentLevel raw) (S i) rest startLine;
     signature := replaceFirst ":" (fst (fullSignature raw rest));
     hasDocstring := docstringAfter rest |}.

(** Lines 196-257: the outer loop; [rest] is [lines] from index [i] on. *)
Fixpoint parseFrom (i : nat) (rest : list str) : list PythonFunction :=
  match rest with
  | [] => []
  | raw :: rest' =>
      match matchDef (trim raw) with
      | Some functionName =>
          describe i functionName raw rest' :: parseFrom (S i) rest'
      | None => parseFrom (S i) rest'
      end
  end.

Definition parseFunctions (code : str) : list PythonFunction :=
  parseFrom 0 (split nl code).

(** *** validatePythonSyntax *)

Inductive SyntaxValidation :=
| Valid
| Invalid (error : str).

Record Counts := mkCounts {
  parenCount : Z;
  bracketCount : Z;
  braceCount : Z
}.

Definition noCounts : Counts := mkCounts 0 0 0.

Definition isQuote (char : ascii) : bool :=
  Ascii.eqb char dq || Ascii.eqb char "'".

(** Lines 295-303.  The string state is [None] outside a string literal
    ([inString] false) and [Some q] inside one opened by [q] ([inString]
    true, [stringChar] q). *)
Definition quoteStep (char : ascii) (st : option ascii) : option ascii :=
  if isQuote char then
    match st with
    | None => Some char
    | Some q => if Ascii.eqb char q then None else st
    end
  else st.

(** Lines 306-311. *)
Definition bump (char : ascii) (k : Counts) : Counts :=
  if Ascii.eqb char "(" then
    mkCounts (parenCount k + 1) (bracketCount k) (braceCount k)
  else if Ascii.eqb char ")" then
    mkCounts (parenCount k - 1) (bracketCount k) (braceCount k)
  else if Ascii.eqb char "[" then
    mkCounts (parenCount k) (bracketCount k + 1) (braceCount k)
  else if Ascii.eqb char "]" then
    mkCounts (parenCount k) (bracketCount k - 1) (braceCount k)
  else if Ascii.eqb char "{" then
    mkCounts (parenCount k) (bracketCount k) (braceCount k + 1)
  else if Ascii.eqb char "}" then
    mkCounts (parenCount k) (bracketCount k) (braceCount k - 1)
  else k.

(** Lines 287-313: the character loop over [trimmed].  A [#] outside a
    string leaves the loop; [inComment] is therefore false at every test
    that reads it. *)
Fixpoint scanChars (cs : str) (st : option ascii) (k : Counts) : Counts :=
  match cs with
  | [] => k
  | char :: cs' =>
      match st, Ascii.eqb char "#" with
      | None, true => k
      | _, _ =>
          let st' := quoteStep char st in
          let k' := match st' with None => bump char k | Some _ => k end in
          scanChars cs' st' k'
      end
  end.

(** Lines 318-323: the first line of [rest] that is not blank, if any. *)
Fixpoint nextNonEmpty (rest : list str) : option str :=
  match rest with
  | [] => None
  | l :: rest' => if isEmpty (trim l) then nextNonEmpty rest' else Some l
  end.

(** The message of line 328. *)
Definition indentError (i : nat) (trimmed : str) : str :=
  lit "Line " ++ showNat (i + 1)
  ++ lit ": Expected indented block after '" ++ trimmed ++ lit "'".

(** Lines 316-332 for the line [line] at index [i] followed by [rest]:
    [Some] message when the function returns there. *)
Definition blockCheck (i : nat) (line : str) (rest : list str) : option str :=
  let indent := getIndentLevel line in
  let trimmed := trim line in
  if endsWith trimmed (lit ":") && negb (startsWith trimmed (lit "#")) then
    match nextNonEmpty rest with
    | Some nextLine =>
        if getIndentLevel nextLine <=? indent
        then Some (indentError i trimmed)
        else None
    | None => None
    end
  else None.

(** Lines 275-333: the line loop; [rest] is [lines] from index [i] on.  The
    early [return] is the left injection, the counters after the last line
    the right one. *)
Fixpoint validateFrom (i : nat) (rest : list str) (k : Counts)
  : str + Counts :=
  match rest with
  | [] => inr k
  | line :: rest' =>
      if isEmpty (trim line) then validateFrom (S i) rest' k
      else
        let k' := scanChars (trim line) None k in
        match blockCheck i line rest' with
        | Some error => inl error
        | None => validateFrom (S i) rest' k'
        end
  end.

(** Lines 335-355. *)
Definition balanceVerdict (k : Counts) : SyntaxValidation :=
  if negb (parenCount k =? 0)%Z then
    Invalid (lit "Unmatched parentheses in code")
  else if negb (bracketCount k =? 0)%Z then
    Invalid (lit "Unmatched square brackets in code")
  else if negb (braceCount k =? 0)%Z then
    Invalid (lit "Unmatched curly braces in code")
  else Valid.

(** No operation of the [try] block throws on a string, so the [catch]
    branch is not modelled. *)
Definition validatePythonSyntax (code : str) : SyntaxValidation :=
  match validateFrom 0 (split nl code) noCounts with
  | inl error => Invalid error
  | inr k => balanceVerdict k
  end.

(** *** extractCodeWithoutDocstrings *)

(** Lines 370-392: the loop over [lines], returning the lines pushed to
    [result] from here on. *)
Fixpoint extractFrom (rest : list str) (inDocstring : bool)
  (docstringQuote : str) : list str :=
  match rest with
  | [] => []
  | line :: rest' =>
      let trimmed := trim line in
      if negb inDocstring && startsTriple trimmed then
        let docstringQuote' :=
          if startsWith trimmed tripleDouble then tripleDouble
          else tripleSingle in
        if (3 <? List.length trimmed) && endsWith trimmed docstringQuote'
        then extractFrom rest' false docstringQuote'
        else extractFrom rest' true docstringQuote'
      else if inDocstring && endsWith trimmed docstringQuote then
        extractFrom rest' false docstringQuote
      else if negb inDocstring then
        line :: extractFrom rest' inDocstring docstringQuote
      else extractFrom rest' inDocstring docstringQuote
  end.

Definition extractCodeWithoutDocstrings (code : str) : str :=
  join nl (extractFrom (split nl code) false []).

End PythonParser.

Import PythonParser.

(** ** Inputs used as examples *)

Module Examples.

(** [unlines [l1; ...; ln]] is the text whose lines are [l1], ..., [ln], each
    one ended by a line feed. *)
Fixpoint unlines (ls : list str) : str :=
  match ls with
  | [] => []
  | l :: ls' => l ++ nl :: unlines ls'
  end.

(** The header over two lines of testable property 4. *)
Definition multiLineDef : str :=
  unlines [lit "def f(a,"; lit "      b):"; lit "    pass"].

(** The function of testable property 5, whose body opens with a
    double-quoted docstring. *)
Definition withDocstring : str :=
  unlines [lit "def f():";
           lit "    " ++ tripleDouble ++ lit "doc" ++ tripleDouble;
           lit "    pass"].

(** A header over two lines whose body opens with a docstring. *)
Definition multiLineWithDocstring : str :=
  unlines [lit "def f(a,"; lit "      b):"; lit "    '''doc'''";
           lit "    pass"].

(** Two functions separated by a blank line. *)
Definition twoFunctions : str :=
  unlines [lit "def f():"; lit "    pass"; lit ""; lit "def g():";
           lit "    return 1"].

(** A header with a parameter and a return annotation. *)
Definition annotated : str :=
  unlines [lit "def f(a: int) -> int:"; lit "    pass"].

(** A header without its colon, at the end of the input. *)
Definition noColonHeader : str := lit "def f()".

(** The unmatched parenthesis of testable property 6. *)
Definition openParen : str := unlines [lit "x = (1, 2"].

(** The missing indentation of testable property 7. *)
Definition noIndent : str := unlines [lit "if True:"; lit "pass"].

(** An open parenthesis and an open square bracket on one line. *)
Definition openParenAndBracket : str := unlines [lit "x = ([1, 2"].

(** Two colon lines, each followed by a line that is not indented. *)
Definition twoNoIndent : str :=
  unlines [lit "if a:"; lit "x"; lit "if b:"; lit "y"].

(** Blank lines only. *)
Definition blankOnly : str := unlines [lit ""; lit "   "; lit ""].

(** A call whose string argument holds brackets and a comment marker,
    followed by a comment with a bracket. *)
Definition quotedBrackets : str :=
  lit "print('#([{') # (".

(** Brackets, no quote and no comment. *)
Definition nestedBrackets : str := unlines [lit "x = f(a[1], {2})"; lit "  y = (x"].

(** A docstring over three lines, and one that is never closed. *)
Definition blockDocstring : str :=
  unlines [lit "def f():"; lit "    '''"; lit "    doc (x"; lit "    '''";
           lit "    pass"].
Definition openDocstring : str :=
  unlines [lit "def f():"; lit "    '''doc"; lit "    pass"].

(** A colon line alone, and followed only by blank lines. *)
Definition colonLast : str := lit "if True:".
Definition colonThenBlank : str := unlines [lit "if True:"; lit ""; lit "  "].

End Examples.

(** ** The conditions of the design document, as propositions *)

Module Wording.

(** The stop test of the body-end scan: indentation at most [indentLevel],
    and trimmed text starting with "def ", "class " or "if __name__". *)
Definition stopsBody (indentLevel : nat) (l : str) : Prop :=
  getIndentLevel l <= indentLevel /\
  (startsWith (trim l) (lit "def ") = true \/
   startsWith (trim l) (lit "class ") = true \/
   startsWith (trim l) (lit "if __name__") = true).

(** A line is blank when nothing is left of it after trimming. *)
Definition blank (l : str) : Prop := trim l = [].

(** The text accumulated from the trimmed lines [pre] and the first [m]
    lines of [rest]. *)
Definition joined (pre rest : list str) (m : nat) : str :=
  join " " (pre ++ map trim (firstn m rest)).

(** The reassembly loop of the descriptor [d] ended because the text had
    balanced parentheses and a colon, not because the input ended. *)
Definition headerClosed (lines : list str) (d : PythonFunction) : bool :=
  match nth_error lines (startLine d - 1) with
  | Some raw =>
      let (sig, depth) := fullSignature raw (skipn (startLine d) lines) in
      negb (needsMore sig depth)
  | None => false
  end.

(** The text has a line that opens a triple-quoted block: its trimmed form
    starts with one of the two delimiters. *)
Definition hasTripleQuotedBlock (text : str) : bool :=
  existsb (fun l => startsTriple (trim l)) (split nl text).

(** The line [line] at index [i] ends with a colon, is no comment, and the
    next non-blank line exists and is not indented more than [line]. *)
Definition lacksBlock (lines : list str) (i : nat) (line : str) : Prop :=
  nth_error lines i = Some line /\
  endsWith (trim line) (lit ":") = true /\
  startsWith (trim line) (lit "#") = false /\
  exists j next,
    i < j /\ nth_error lines j = Some next /\ ~ blank next /\
    (forall j' l', i < j' < j -> nth_error lines j' = Some l' -> blank l') /\
    getIndentLevel next <= getIndentLevel line.

(** The balance counters after the character loop has run over every
    non-blank line of [rest], starting from [k]. *)
Definition tally (rest : list str) (k : Counts) : Counts :=
  fold_left
    (fun k line =>
       if isEmpty (trim line) then k else scanChars (trim line) None k)
    rest k.

(** What [k] appended empty lines leave of a descriptor [d] of the original
    lines: every field but the signature of a header left open, which gets
    [k] spaces. *)
Definition sameButOpenSignature (k : nat) (lines : list str)
  (d d' : PythonFunction) : Prop :=
  name d' = name d /\
  startLine d' = startLine d /\
  endLine d' = endLine d /\
  hasDocstring d' = hasDocstring d /\
  signature d' =
    if headerClosed lines d then signature d
    else signature d ++ repeat " " k.

End Wording.

Import Wording.

(** ** Further notions used in the statements about the parser *)

Module Notions.

(** The line matches the [def] pattern of line 200 after trimming. *)
Definition isDefLine (raw : str) : bool :=
  match matchDef (trim raw) with
  | Some _ => true
  | None => false
  end.

(** The 1-indexed numbers of the lines that match the [def] pattern, in
    increasing order. *)
Definition defLineNumbers (lines : list str) : list nat :=
  map S (filter (fun i => isDefLine (nth i lines [])) (seq 0 (List.length lines))).

(** Neither a quote nor the comment marker occurs in the text. *)
Definition plainText (s : str) : bool :=
  forallb (fun c => negb (isQuote c) && negb (Ascii.eqb c "#")) s.

(** [out] is [l] with some elements left out, in the same order. *)
Inductive Subseq {A : Type} : list A -> list A -> Prop :=
| Subseq_nil : Subseq [] []
| Subseq_keep (x : A) (out l : list A) : Subseq out l -> Subseq (x :: out) (x :: l)
| Subseq_skip (x : A) (out l : list A) : Subseq out l -> Subseq out (x :: l).

(** The delimiter that line 374 records for a line that opens a docstring. *)
Definition delimiterOf (opener : str) : str :=
  if startsWith (trim opener) tripleDouble then tripleDouble else tripleSingle.

(** The test of line 378: the docstring that [opener] opens ends on the
    same line. *)
Definition closesOnSameLine (opener : str) : bool :=
  (3 <? List.length (trim opener))
  && endsWith (trim opener) (delimiterOf opener).

End Notions.

Import Notions.

(** ** The in-memory storage of server/storage.ts *)

(** A JavaScript [Map] with string keys: the entries in insertion order.
    [set] on a key that is present replaces the value where it stands; on a
    new key it appends the entry. *)
Module JSMap.

Fixpoint strEq (a b : str) : bool :=
  match a, b with
  | [], [] => true
  | x :: a', y :: b' => Ascii.eqb x y && strEq a' b'
  | _, _ => false
  end.

Definition t (V : Type) : Type := list (str * V).

Definition empty {V : Type} : t V := [].

Fixpoint get {V : Type} (key : str) (m : t V) : option V :=
  match m with
  | [] => None
  | (k, v) :: m' => if strEq k key then Some v else get key m'
  end.

Fixpoint set {V : Type} (key : str) (value : V) (m : t V) : t V :=
  match m with
  | [] => [(key, value)]
  | (k, v) :: m' =>
      if strEq k key then (k, value) :: m'
      else (k, v) :: set key value m'
  end.

Definition values {V : Type} (m : t V) : list V := map snd m.

Definition keys {V : Type} (m : t V) : list str := map fst m.

End JSMap.

(** Array operations used by the storage. *)
Module JSArray.

(** [a.find(p)] *)
Definition find {A : Type} (p : A -> bool) (a : list A) : option A :=
  List.find p a.

(** One step of a stable insertion: [x] goes before the first element that
    the comparator does not put before it. *)
Fixpoint insertBy {A : Type} (cmp : A -> A -> Z) (x : A) (a : list A)
  : list A :=
  match a with
  | [] => [x]
  | y :: a' =>
      if (cmp x y <=? 0)%Z then x :: y :: a' else y :: insertBy cmp x a'
  end.

(** [a.sort(cmp)] on a copy.  The language requires the sort to be stable,
    so with a comparator that orders by a key the result is determined:
    the elements in key order, equal keys in their original order.  The
    insertion sort below computes it. *)
Fixpoint sort {A : Type} (cmp : A -> A -> Z) (a : list A) : list A :=
  match a with
  | [] => []
  | x :: a' => insertBy cmp x (sort cmp a')
  end.

(** [a.slice(0, end)] for an integer [end]: a negative [end] counts from
    the end of the array. *)
Definition slice0 {A : Type} (end_ : Z) (a : list A) : list A :=
  let len := Z.of_nat (List.length a) in
  let stop := if (end_ <? 0)%Z then Z.max (len + end_) 0 else Z.min end_ len in
  firstn (Z.to_nat stop) a.

End JSArray.

Module User.
Record t := mk {
  id : str;
  username : str;
  password : str
}.
End User.

(** [InsertUser]: the picked columns [username] and [password]. *)
Module InsertUser.
Record t := mk {
  username : str;
  password : str
}.
End InsertUser.

(** A stored generation.  [insert] stands for the fields spread from the
    [InsertDocstringGeneration] argument, which the storage never reads;
    [createdAt] is the time value of the [Date], in milliseconds. *)
Module DocstringGeneration.
Record t (Insert : Type) := mk {
  insert : Insert;
  id : str;
  createdAt : option Z
}.
Arguments mk {Insert}.
Arguments insert {Insert}.
Arguments id {Insert}.
Arguments createdAt {Insert}.
End DocstringGeneration.

Module MemStorage.

Record t (Insert : Type) := mk {
  users : JSMap.t User.t;
  docstringGenerations : JSMap.t (DocstringGeneration.t Insert)
}.
Arguments mk {Insert}.
Arguments users {Insert}.
Arguments docstringGenerations {Insert}.

(** The constructor. *)
Definition new {Insert : Type} : t Insert := mk JSMap.empty JSMap.empty.

Definition getUser {Insert : Type} (id : str) (st : t Insert)
  : option User.t :=
  JSMap.get id (users st).

Definition getUserByUsername {Insert : Type} (username : str) (st : t Insert)
  : option User.t :=
  JSArray.find (fun user => JSMap.strEq (User.username user) username)
               (JSMap.values (users st)).

(** [id] is the value that [randomUUID()] returns. *)
Definition createUser {Insert : Type} (insertUser : InsertUser.t) (id : str)
  (st : t Insert) : User.t * t Insert :=
  let user := User.mk id (InsertUser.username insertUser)
                         (InsertUser.password insertUser) in
  (user, mk (JSMap.set id user (users st)) (docstringGenerations st)).

(** [id] is the value that [randomUUID()] returns and [now] the time value
    of [new Date()]. *)
Definition createDocstringGeneration {Insert : Type} (generation : Insert)
  (id : str) (now : Z) (st : t Insert)
  : DocstringGeneration.t Insert * t Insert :=
  let docstringGeneration := DocstringGeneration.mk generation id (Some now) in
  (docstringGeneration,
   mk (users st) (JSMap.set id docstringGeneration (docstringGenerations st))).

Definition getDocstringGeneration {Insert : Type} (id : str) (st : t Insert)
  : option (DocstringGeneration.t Insert) :=
  JSMap.get id (docstringGenerations st).

(** [createdAt?.getTime() || 0] *)
Definition timeOf {Insert : Type} (g : DocstringGeneration.t Insert) : Z :=
  match DocstringGeneration.createdAt g with
  | Some time => if (time =? 0)%Z then 0%Z else time
  | None => 0%Z
  end.

(** The comparator of line 56: newer first. *)
Definition newerFirst {Insert : Type} (a b : DocstringGeneration.t Insert)
  : Z :=
  (timeOf b - timeOf a)%Z.

(** [limit] is [None] when the argument is left out. *)
Definition getRecentGenerations {Insert : Type} (limit : option Z)
  (st : t Insert) : list (DocstringGeneration.t Insert) :=
  let limit := match limit with Some n => n | None => 10%Z end in
  JSArray.slice0 limit
    (JSArray.sort newerFirst (JSMap.values (docstringGenerations st))).

(** [a] is not older than [b]: the order of the list that
    [getRecentGenerations] returns. *)
Definition notOlder {Insert : Type} (a b : DocstringGeneration.t Insert)
  : Prop :=
  (timeOf b <= timeOf a)%Z.

End MemStorage.

(** ** The request handler of server/routes.ts that generates docstrings *)

Module Routes.



End Routes.

(** ** Facts about the string primitives *)

Section StringFacts.

Lemma trimStart_suffix (s : str) : exists p, s = p ++ trimStart s.
Proof.
  induction s as [|c s [p IH]]; simpl.
  - exists []; reflexivity.
  - destruct (is_space c).
    + exists (c :: p); simpl; f_equal; exact IH.
    + exists []; reflexivity.
Qed.

Lemma trimEnd_prefix (s : str) : exists q, s = trimEnd s ++ q.
Proof.
  unfold trimEnd.
  destruct (trimStart_suffix (rev s)) as [p Hp].
  exists (rev p).
  rewrite <- rev_app_distr, <- Hp, rev_involutive; reflexivity.
Qed.

Lemma trim_substring (s : str) : substring_of (trim s) s.
Proof.
  unfold trim.
  destruct (trimStart_suffix s) as [p Hp].
  destruct (trimEnd_prefix (trimStart s)) as [q Hq].
  exists p, q. rewrite <- Hq; exact Hp.
Qed.

Lemma substring_of_trans (a b c : str) :
  substring_of a b -> substring_of b c -> substring_of a c.
Proof.
  intros [p1 [q1 H1]] [p2 [q2 H2]]; subst.
  exists (p2 ++ p1), (q1 ++ q2).
  repeat rewrite <- app_assoc; reflexivity.
Qed.

Lemma takeWhile_dropWhile (p : ascii -> bool) (s : str) :
  takeWhile p s ++ dropWhile p s = s.
Proof.
  induction s as [|c s IH]; simpl; [reflexivity|].
  destruct (p c); simpl; [f_equal; exact IH | reflexivity].
Qed.

Lemma startsWith_split (s p : str) :
  startsWith s p = true -> s = p ++ skipn (List.length p) s.
Proof.
  revert s; induction p as [|a p IH]; intros s H; simpl in *.
  - reflexivity.
  - destruct s as [|b s]; [discriminate|].
    apply andb_true_iff in H; destruct H as [Hab Hs].
    apply Ascii.eqb_eq in Hab; subst b.
    simpl; f_equal; apply IH; exact Hs.
Qed.

(** An index of [l] past [n] is an index of [skipn n l]. *)
Lemma nth_error_skipn_from (A : Type) (l : list A) (n m : nat) (x : A) :
  n <= m -> nth_error l m = Some x -> nth_error (skipn n l) (m - n) = Some x.
Proof.
  intros Hle H. rewrite nth_error_skipn.
  replace (n + (m - n)) with m by lia. exact H.
Qed.

(** Splitting *)

Lemma split_not_nil (sep : ascii) (s : str) : split sep s <> [].
Proof.
  destruct s as [|c s]; simpl; [discriminate|].
  destruct (Ascii.eqb c sep); [discriminate|].
  destruct (split sep s); discriminate.
Qed.

Lemma split_app_seps (sep : ascii) (s : str) (k : nat) :
  split sep (s ++ repeat sep k) = split sep s ++ repeat [] k.
Proof.
  induction s as [|c s IH]; simpl.
  - induction k as [|k IHk]; simpl; [reflexivity|].
    rewrite Ascii.eqb_refl, IHk; reflexivity.
  - destruct (Ascii.eqb c sep); rewrite IH; [reflexivity|].
    pose proof (split_not_nil sep s) as Hne.
    destruct (split sep s); [congruence | reflexivity].
Qed.

Lemma split_no_sep (sep : ascii) (s : str) :
  Forall (fun l => ~ In sep l) (split sep s).
Proof.
  induction s as [|c s IH]; simpl.
  - constructor; [intros [] | constructor].
  - destruct (Ascii.eqb c sep) eqn:E.
    + constructor; [intros [] | exact IH].
    + apply Ascii.eqb_neq in E.
      destruct (split sep s) as [|l ls].
      * constructor; [|constructor]. intros [H|[]]; congruence.
      * inversion IH; subst. constructor; [|assumption].
        intros [H|H]; [congruence | contradiction].
Qed.

Lemma split_fresh (sep : ascii) (l : str) :
  ~ In sep l -> split sep l = [l].
Proof.
  induction l as [|c l IH]; intros H; simpl; [reflexivity|].
  destruct (Ascii.eqb c sep) eqn:E.
  - apply Ascii.eqb_eq in E; subst; exfalso; apply H; left; reflexivity.
  - rewrite IH; [reflexivity|]. intros H'; apply H; right; exact H'.
Qed.

Lemma split_cons_line (sep : ascii) (l rest : str) :
  ~ In sep l -> split sep (l ++ sep :: rest) = l :: split sep rest.
Proof.
  induction l as [|c l IH]; intros H; simpl.
  - rewrite Ascii.eqb_refl; reflexivity.
  - destruct (Ascii.eqb c sep) eqn:E.
    + apply Ascii.eqb_eq in E; subst; exfalso; apply H; left; reflexivity.
    + rewrite IH; [reflexivity|]. intros H'; apply H; right; exact H'.
Qed.

Lemma split_join (sep : ascii) (ls : list str) :
  ls <> [] -> Forall (fun l => ~ In sep l) ls -> split sep (join sep ls) = ls.
Proof.
  induction ls as [|l ls IH]; intros Hne Hall; [congruence|].
  inversion Hall as [|? ? Hl Hls]; subst.
  destruct ls as [|l' ls'].
  - simpl; apply split_fresh; exact Hl.
  - change (join sep (l :: l' :: ls')) with (l ++ sep :: join sep (l' :: ls')).
    rewrite split_cons_line by exact Hl.
    f_equal; apply IH; [discriminate | exact Hls].
Qed.

End StringFacts.

(** ** Facts about [parseFunctions] *)

Section ParseFacts.

Lemma matchDef_substring (line fname : str) :
  matchDef line = Some fname -> substring_of fname line.
Proof.
  unfold matchDef. cbv zeta. intros H.
  match type of H with
  | (if ?c then _ else _) = _ => destruct c eqn:E; [|discriminate]
  end.
  injection H as <-.
  repeat (apply andb_true_iff in E; destruct E as [E ?]).
  apply startsWith_split in E. cbn [List.length lit list_ascii_of_string] in E.
  set (r := skipn 3 line) in *.
  exists (lit "def" ++ takeWhile is_space r),
         (dropWhile isIdentChar (dropWhile is_space r)).
  rewrite takeWhile_dropWhile, <- app_assoc, takeWhile_dropWhile.
  exact E.
Qed.

Lemma matchDef_nil : matchDef [] = None.
Proof. reflexivity. Qed.

(** Every descriptor comes from a matched line: it is the descriptor built
    at that line's index from the lines that follow it. *)
Lemma In_parseFrom (d : PythonFunction) (rest : list str) :
  forall i, In d (parseFrom i rest) ->
  exists k raw fname,
    nth_error rest k = Some raw /\
    matchDef (trim raw) = Some fname /\
    d = describe (i + k) fname raw (skipn (S k) rest).
Proof.
  induction rest as [|raw rest IH]; intros i H; simpl in H; [contradiction|].
  assert (Hrec : In d (parseFrom (S i) rest) ->
                 exists k raw0 fname,
                   nth_error (raw :: rest) k = Some raw0 /\
                   matchDef (trim raw0) = Some fname /\
                   d = describe (i + k) fname raw0
                         (skipn (S k) (raw :: rest))).
  { intros H'. destruct (IH _ H') as (k & raw0 & fname & Hk & Hm & Hd).
    exists (S k), raw0, fname. repeat split; try assumption.
    rewrite Hd. f_equal. lia. }
  destruct (matchDef (trim raw)) as [fname|] eqn:Hm.
  - destruct H as [H|H]; [|exact (Hrec H)].
    exists 0, raw, fname. repeat split; try assumption.
    rewrite Nat.add_0_r; symmetry; exact H.
  - exact (Hrec H).
Qed.

Lemma In_parseFunctions (code : str) (d : PythonFunction) :
  In d (parseFunctions code) ->
  exists raw,
    nth_error (split nl code) (startLine d - 1) = Some raw /\
    matchDef (trim raw) = Some (name d) /\
    d = describe (startLine d - 1) (name d) raw
          (skipn (startLine d) (split nl code)).
Proof.
  intros H. apply In_parseFrom in H.
  destruct H as (k & raw & fname & Hk & Hm & Hd).
  subst d; simpl. rewrite Nat.sub_0_r.
  exists raw. repeat split; assumption.
Qed.

Lemma endsBody_not_blank (indentLevel : nat) (l : str) :
  endsBody indentLevel l = true -> isEmpty (trim l) = false.
Proof.
  unfold endsBody. destruct (trim l); [|reflexivity].
  simpl. rewrite andb_false_r. discriminate.
Qed.

Lemma scanEnd_lower (indentLevel : nat) (rest : list str) :
  forall j e s, s <= j -> s <= e -> s <= scanEnd indentLevel j rest e.
Proof.
  induction rest as [|l rest IH]; intros j e s Hj He; simpl; [exact He|].
  destruct (isEmpty (trim l)).
  - apply IH; lia.
  - destruct (endsBody indentLevel l); [exact Hj | apply IH; lia].
Qed.

(** The scan stops at the first line that passes the stop test, and the
    result is that line's index. *)
Lemma scanEnd_stop (indentLevel : nat) (rest : list str) :
  forall j e s ls,
    nth_error rest s = Some ls ->
    endsBody indentLevel ls = true ->
    (forall s' l', s' < s -> nth_error rest s' = Some l' ->
                   endsBody indentLevel l' = false) ->
    scanEnd indentLevel j rest e = j + s.
Proof.
  induction rest as [|l rest IH]; intros j e s ls Hs Hstop Hfirst.
  - destruct s; discriminate.
  - destruct s as [|s]; simpl in Hs.
    + injection Hs as ->. simpl.
      rewrite (endsBody_not_blank _ _ Hstop), Hstop. lia.
    + assert (Hl : endsBody indentLevel l = false).
      { apply (Hfirst 0 l); [lia | reflexivity]. }
      assert (Hrest : forall s' l', s' < s -> nth_error rest s' = Some l' ->
                                    endsBody indentLevel l' = false).
      { intros s' l' Hlt Hn. apply (Hfirst (S s') l'); [lia | exact Hn]. }
      simpl. rewrite Hl.
      destruct (isEmpty (trim l));
        rewrite (IH (S j) _ s ls Hs Hstop Hrest); lia.
Qed.

(** Without a stopping line the scan returns the number of the last
    non-blank line it met, or the initial value when it met none. *)
Lemma scanEnd_no_stop (indentLevel : nat) (rest : list str) :
  forall j e,
    (forall s l, nth_error rest s = Some l -> endsBody indentLevel l = false) ->
    (scanEnd indentLevel j rest e = e /\
     forall s l, nth_error rest s = Some l -> trim l = [])
    \/
    (exists m lm,
        scanEnd indentLevel j rest e = S (j + m) /\
        nth_error rest m = Some lm /\ trim lm <> [] /\
        forall m' l', m < m' -> nth_error rest m' = Some l' -> trim l' = []).
Proof.
  induction rest as [|l rest IH]; intros j e Hno.
  - left. split; [reflexivity|]. intros [|s] l H; discriminate.
  - assert (Hl : endsBody indentLevel l = false) by (apply (Hno 0); reflexivity).
    assert (Hrest : forall s l0, nth_error rest s = Some l0 ->
                                 endsBody indentLevel l0 = false).
    { intros s l0 H. apply (Hno (S s)); exact H. }
    simpl. rewrite Hl.
    destruct (trim l) as [|c t] eqn:Ht; simpl.
    + destruct (IH (S j) e Hrest) as [[He Hall] | (m & lm & He & Hm & Hne & Hlast)].
      * left. split; [exact He|].
        intros [|s] l0 H; simpl in H; [injection H as <-; exact Ht|].
        apply (Hall s); exact H.
      * right. exists (S m), lm. repeat split.
        -- rewrite He; f_equal; lia.
        -- exact Hm.
        -- exact Hne.
        -- intros [|m'] l' Hlt H; [lia|]. apply (Hlast m'); [lia | exact H].
    + destruct (IH (S j) (S j) Hrest) as [[He Hall] | (m & lm & He & Hm & Hne & Hlast)].
      * right. exists 0, l. repeat split.
        -- rewrite He; f_equal; lia.
        -- rewrite Ht; discriminate.
        -- intros [|m'] l' Hlt H; [lia|]. apply (Hall m'); exact H.
      * right. exists (S m), lm. repeat split.
        -- rewrite He; f_equal; lia.
        -- exact Hm.
        -- exact Hne.
        -- intros [|m'] l' Hlt H; [lia|]. apply (Hlast m'); [lia | exact H].
Qed.

End ParseFacts.

(** ** Properties of [parseFunctions] *)

Lemma endsBody_stopsBody (indentLevel : nat) (l : str) :
  endsBody indentLevel l = true <-> stopsBody indentLevel l.
Proof.
  unfold endsBody, stopsBody.
  rewrite andb_true_iff, !orb_true_iff, Nat.leb_le. tauto.
Qed.

Lemma not_stopsBody (indentLevel : nat) (l : str) :
  ~ stopsBody indentLevel l -> endsBody indentLevel l = false.
Proof.
  intros H. destruct (endsBody indentLevel l) eqn:E; [|reflexivity].
  apply endsBody_stopsBody in E. contradiction.
Qed.

(** C7.  Every descriptor that [parseFunctions] returns has
    [startLine <= endLine], and the line of the input at the 1-indexed
    position [startLine] contains the descriptor's [name] as a substring. *)
Theorem startLine_le_endLine_name_on_line (code : str) (d : PythonFunction) :
  In d (parseFunctions code) ->
  startLine d <= endLine d /\
  1 <= startLine d /\
  exists line,
    nth_error (split nl code) (startLine d - 1) = Some line /\
    substring_of (name d) line.
Proof.
  intros H. apply In_parseFunctions in H.
  destruct H as (raw & Hraw & Hm & Hd).
  split; [|split].
  - rewrite Hd at 2. cbn [describe endLine].
    assert (Hs : startLine d = S (startLine d - 1)) by (rewrite Hd at 1; simpl; lia).
    rewrite <- Hs. apply scanEnd_lower; lia.
  - rewrite Hd; simpl; lia.
  - exists raw. split; [exact Hraw|].
    apply substring_of_trans with (b := trim raw).
    + apply matchDef_substring; exact Hm.
    + apply trim_substring.
Qed.

Lemma startLine_le_endLine_name_on_line_witness :
  let d := mkPythonFunction (lit "f") 1 3 (lit "def f(a, b)") false in
  In d (parseFunctions Examples.multiLineDef) /\
  startLine d <= endLine d /\
  1 <= startLine d /\
  exists line,
    nth_error (split nl Examples.multiLineDef) (startLine d - 1) = Some line /\
    substring_of (name d) line.
Proof.
  intros d.
  assert (H : In d (parseFunctions Examples.multiLineDef))
    by (vm_compute; left; reflexivity).
  split; [exact H|].
  exact (startLine_le_endLine_name_on_line Examples.multiLineDef d H).
Defined.

(** C3.  For every input, [hasDocstring] of a descriptor is true exactly
    when the physical line right after the matched [def] line exists and
    its trimmed text starts with three double quotes or three single
    quotes; the test looks at that line also when the header continues on
    it.  The function of testable property 5 gets [hasDocstring = true]; a
    header over two lines followed by a docstring gets [false]. *)
Theorem hasDocstring_next_physical_line :
  (forall (code : str) (d : PythonFunction),
      In d (parseFunctions code) ->
      (hasDocstring d = true <->
       exists next,
         nth_error (split nl code) (startLine d) = Some next /\
         (startsWith (trim next) tripleDouble = true \/
          startsWith (trim next) tripleSingle = true)))
  /\ parseFunctions Examples.withDocstring =
       [mkPythonFunction (lit "f") 1 3 (lit "def f()") true]
  /\ parseFunctions Examples.multiLineWithDocstring =
       [mkPythonFunction (lit "f") 1 4 (lit "def f(a, b)") false].
Proof.
  split; [|split; vm_compute; reflexivity].
  intros code d H. apply In_parseFunctions in H.
  destruct H as (raw & Hraw & Hm & Hd).
  assert (Hs : startLine d = S (startLine d - 1)) by (rewrite Hd at 1; simpl; lia).
  assert (Hnext : forall n, nth_error (skipn (startLine d) (split nl code)) 0 = n ->
                            nth_error (split nl code) (startLine d) = n).
  { intros n Hn. rewrite nth_error_skipn, Nat.add_0_r in Hn. exact Hn. }
  rewrite Hd at 1. cbn [describe hasDocstring]. unfold docstringAfter.
  destruct (skipn (startLine d) (split nl code)) as [|next rest] eqn:Hsk.
  - split; [discriminate|].
    intros (next & Hn & _). rewrite (Hnext None eq_refl) in Hn. discriminate.
  - rewrite (Hnext (Some next) eq_refl).
    unfold startsTriple. rewrite orb_true_iff. split.
    + intros Ht. exists next. split; [reflexivity | exact Ht].
    + intros (next' & Hn & Ht). injection Hn as ->. exact Ht.
Qed.

Lemma hasDocstring_next_physical_line_witness :
  let d := mkPythonFunction (lit "f") 1 3 (lit "def f()") true in
  In d (parseFunctions Examples.withDocstring) /\
  exists next,
    nth_error (split nl Examples.withDocstring) (startLine d) = Some next /\
    (startsWith (trim next) tripleDouble = true \/
     startsWith (trim next) tripleSingle = true).
Proof.
  intros d.
  assert (H : In d (parseFunctions Examples.withDocstring))
    by (vm_compute; left; reflexivity).
  split; [exact H|].
  apply (proj1 hasDocstring_next_physical_line Examples.withDocstring d H).
  reflexivity.
Defined.

(** C2.  Let [d] be a descriptor and [raw] its [def] line, at 0-indexed
    position [startLine d - 1].  Blank lines never pass the stop test, so
    the scan skips them.  If the line at 0-indexed position [s] is the
    first one after the [def] line that passes the stop test (indentation
    at most that of [raw], trimmed text starting with "def ", "class " or
    "if __name__"), the scan stops there with [endLine d = s], which is the
    1-indexed number of the line just before the stopping line.  If no line
    after the [def] line passes the test, [endLine d] is the 1-indexed
    number of the last non-blank line from the [def] line on. *)
Theorem endLine_body_end_scan (code : str) (d : PythonFunction) (raw : str) :
  In d (parseFunctions code) ->
  nth_error (split nl code) (startLine d - 1) = Some raw ->
  (forall l, blank l -> ~ stopsBody (getIndentLevel raw) l) /\
  (forall s ls,
      startLine d <= s ->
      nth_error (split nl code) s = Some ls ->
      stopsBody (getIndentLevel raw) ls ->
      (forall s' l', startLine d <= s' < s ->
                     nth_error (split nl code) s' = Some l' ->
                     ~ stopsBody (getIndentLevel raw) l') ->
      endLine d = s) /\
  ((forall s ls, startLine d <= s ->
                 nth_error (split nl code) s = Some ls ->
                 ~ stopsBody (getIndentLevel raw) ls) ->
   exists m lm,
     endLine d = S m /\ startLine d - 1 <= m /\
     nth_error (split nl code) m = Some lm /\ ~ blank lm /\
     forall m' l', m < m' -> nth_error (split nl code) m' = Some l' ->
                   blank l').
Proof.
  intros H Hraw. apply In_parseFunctions in H.
  destruct H as (raw' & Hraw' & Hm & Hd).
  rewrite Hraw in Hraw'. injection Hraw' as <-.
  set (lines := split nl code) in *.
  set (sl := startLine d) in *.
  assert (Hs : sl = S (sl - 1)) by (unfold sl; rewrite Hd; simpl; lia).
  assert (He : endLine d =
               scanEnd (getIndentLevel raw) sl (skipn sl lines) sl).
  { rewrite Hd at 1. cbn [describe endLine]. rewrite <- Hs. reflexivity. }
  split; [|split].
  - intros l Hb Hstop. apply endsBody_stopsBody, endsBody_not_blank in Hstop.
    unfold blank in Hb. rewrite Hb in Hstop. discriminate.
  - intros s ls Hle Hn Hstop Hfirst.
    rewrite He.
    rewrite (scanEnd_stop (getIndentLevel raw) (skipn sl lines) sl sl
               (s - sl) ls); [lia | | |].
    + apply nth_error_skipn_from; [lia | exact Hn].
    + apply endsBody_stopsBody; exact Hstop.
    + intros s' l' Hlt Hn'. rewrite nth_error_skipn in Hn'.
      apply not_stopsBody. apply (Hfirst (sl + s')); [lia | exact Hn'].
  - intros Hno.
    destruct (scanEnd_no_stop (getIndentLevel raw) (skipn sl lines) sl sl)
      as [[Hr Hall] | (m & lm & Hr & Hn & Hne & Hlast)].
    + intros s l Hn. rewrite nth_error_skipn in Hn.
      apply not_stopsBody. apply (Hno (sl + s)); [lia | exact Hn].
    + exists (sl - 1), raw. repeat split.
      * rewrite He, Hr; exact Hs.
      * lia.
      * exact Hraw.
      * unfold blank. intros Hb. rewrite Hb, matchDef_nil in Hm. discriminate.
      * intros m' l' Hlt Hn. apply (Hall (m' - sl)).
        apply nth_error_skipn_from; [lia | exact Hn].
    + exists (sl + m), lm. repeat split.
      * rewrite He, Hr; reflexivity.
      * lia.
      * rewrite nth_error_skipn in Hn; exact Hn.
      * exact Hne.
      * intros m' l' Hlt Hn'. apply (Hlast (m' - sl)); [lia|].
        apply nth_error_skipn_from; [lia | exact Hn'].
Qed.

Lemma endLine_body_end_scan_witness :
  let d := mkPythonFunction (lit "f") 1 3 (lit "def f()") false in
  In d (parseFunctions Examples.twoFunctions) /\
  nth_error (split nl Examples.twoFunctions) (startLine d - 1)
    = Some (lit "def f():") /\
  endLine d = 3.
Proof.
  intros d.
  assert (H : In d (parseFunctions Examples.twoFunctions))
    by (vm_compute; left; reflexivity).
  assert (Hraw : nth_error (split nl Examples.twoFunctions) (startLine d - 1)
                 = Some (lit "def f():")) by reflexivity.
  split; [exact H | split; [exact Hraw|]].
  apply (proj1 (proj2 (endLine_body_end_scan _ d _ H Hraw)) 3 (lit "def g():")).
  - simpl; lia.
  - reflexivity.
  - split; [simpl; lia | left; reflexivity].
  - intros s' l' Hs' Hn [_ Hstart].
    simpl in Hs'.
    assert (Hc : s' = 1 \/ s' = 2) by lia.
    destruct Hc; subst s'; vm_compute in Hn; injection Hn as <-;
      vm_compute in Hstart; intuition discriminate.
Defined.

(** *** Signature reassembly *)

Lemma join_snoc (sep : ascii) (pre : list str) (l : str) :
  pre <> [] -> join sep (pre ++ [l]) = join sep pre ++ sep :: l.
Proof.
  induction pre as [|a pre IH]; intros Hne; [congruence|].
  destruct pre as [|b pre].
  - reflexivity.
  - change (join sep ((a :: b :: pre) ++ [l]))
      with (a ++ sep :: join sep ((b :: pre) ++ [l])).
    rewrite IH by discriminate.
    change (join sep (a :: b :: pre)) with (a ++ sep :: join sep (b :: pre)).
    rewrite <- app_assoc. reflexivity.
Qed.

Lemma parenDelta_join (a b : str) :
  parenDelta (a ++ " " :: b) = (parenDelta a + parenDelta b)%Z.
Proof.
  unfold parenDelta, countChar.
  rewrite !count_occ_app.
  rewrite !count_occ_cons_neq by discriminate.
  lia.
Qed.

Lemma reassemble_joined (rest : list str) :
  forall pre, pre <> [] ->
  exists n,
    n <= List.length rest /\
    reassemble rest (join " " pre) (parenDelta (join " " pre))
      = (joined pre rest n, parenDelta (joined pre rest n)) /\
    (forall m, m < n ->
               needsMore (joined pre rest m) (parenDelta (joined pre rest m))
               = true) /\
    (n < List.length rest ->
     needsMore (joined pre rest n) (parenDelta (joined pre rest n)) = false).
Proof.
  induction rest as [|l rest IH]; intros pre Hne.
  - exists 0. unfold joined. simpl. rewrite app_nil_r.
    repeat split; [lia | intros m Hm; lia | intros Hlt; lia].
  - simpl reassemble.
    destruct (needsMore (join " " pre) (parenDelta (join " " pre))) eqn:Hmore.
    + rewrite <- parenDelta_join, <- join_snoc by exact Hne.
      destruct (IH (pre ++ [trim l])) as (n & Hn & Hre & Hbefore & Hafter).
      { destruct pre; discriminate. }
      assert (Hj : forall m, joined (pre ++ [trim l]) rest m
                             = joined pre (l :: rest) (S m)).
      { intros m. unfold joined. simpl. rewrite <- app_assoc. reflexivity. }
      exists (S n). repeat split.
      * simpl; lia.
      * rewrite Hre, Hj. reflexivity.
      * intros [|m] Hm.
        -- unfold joined. simpl. rewrite app_nil_r. exact Hmore.
        -- rewrite <- Hj. apply Hbefore. lia.
      * intros Hlt. rewrite <- Hj. apply Hafter. simpl in Hlt. lia.
    + exists 0. unfold joined. simpl. rewrite app_nil_r.
      repeat split; [lia | intros m Hm; lia | intros _; exact Hmore].
Qed.

Lemma skipn_nth_error_cons (A : Type) (l : list A) :
  forall k x, nth_error l k = Some x -> skipn k l = x :: skipn (S k) l.
Proof.
  induction l as [|a l IH]; intros [|k] x H; try discriminate.
  - injection H as ->. reflexivity.
  - simpl in H. simpl skipn at 1. rewrite (IH k x H). reflexivity.
Qed.

(** C4.  On the header over two lines of testable property 4,
    [parseFunctions] returns exactly one descriptor, with name "f",
    [startLine] 1 and signature "def f(a, b)".  In general the signature is
    the text [acc n], with its first colon removed, where [acc m] joins with
    single spaces the trimmed [def] line and the [m] trimmed lines after
    it: every shorter text [acc m] still had parenthesis depth above 0 or
    no colon, and [acc n] has neither unless the input ended. *)
Theorem signature_reassembly :
  parseFunctions Examples.multiLineDef =
    [mkPythonFunction (lit "f") 1 3 (lit "def f(a, b)") false]
  /\
  forall (code : str) (d : PythonFunction),
    In d (parseFunctions code) ->
    let acc m :=
      join " " (map trim (firstn (S m) (skipn (startLine d - 1)
                                              (split nl code)))) in
    exists n,
      signature d = replaceFirst ":" (acc n) /\
      startLine d + n <= List.length (split nl code) /\
      (forall m, m < n ->
                 (0 < parenDelta (acc m))%Z \/ includes (acc m) ":" = false) /\
      (startLine d + n < List.length (split nl code) ->
       (parenDelta (acc n) <= 0)%Z /\ includes (acc n) ":" = true).
Proof.
  split; [vm_compute; reflexivity|].
  intros code d H acc. apply In_parseFunctions in H.
  destruct H as (raw & Hraw & Hm & Hd).
  set (lines := split nl code) in *.
  set (sl := startLine d) in *.
  assert (Hs : sl = S (sl - 1)) by (unfold sl; rewrite Hd; simpl; lia).
  assert (Hlen : List.length (skipn sl lines) = List.length lines - sl)
    by apply length_skipn.
  assert (Hlt : sl - 1 < List.length lines).
  { apply nth_error_Some. rewrite Hraw. discriminate. }
  assert (Hacc : forall m, acc m = joined [trim raw] (skipn sl lines) m).
  { intros m. unfold acc, joined.
    rewrite (skipn_nth_error_cons _ lines (sl - 1) raw Hraw), <- Hs.
    reflexivity. }
  destruct (reassemble_joined (skipn sl lines) [trim raw])
    as (n & Hn & Hre & Hbefore & Hafter); [discriminate|].
  exists n. repeat split.
  - rewrite Hd at 1. cbn [describe signature]. unfold fullSignature.
    change (trim raw) with (join " " [trim raw]).
    rewrite Hre, Hacc. reflexivity.
  - lia.
  - intros m Hmn. specialize (Hbefore m Hmn). rewrite <- Hacc in Hbefore.
    unfold needsMore in Hbefore. apply orb_true_iff in Hbefore.
    destruct Hbefore as [Hp|Hc].
    + left. apply Z.ltb_lt. exact Hp.
    + right. apply negb_true_iff. exact Hc.
  - assert (Hgo : n < List.length (skipn sl lines)) by lia.
    specialize (Hafter Hgo). rewrite <- Hacc in Hafter.
    unfold needsMore in Hafter. apply orb_false_iff in Hafter.
    destruct Hafter as [Hp _]. apply Z.ltb_ge. exact Hp.
  - assert (Hgo : n < List.length (skipn sl lines)) by lia.
    specialize (Hafter Hgo). rewrite <- Hacc in Hafter.
    unfold needsMore in Hafter. apply orb_false_iff in Hafter.
    destruct Hafter as [_ Hc]. apply negb_false_iff. exact Hc.
Qed.

Lemma signature_reassembly_witness :
  let d := mkPythonFunction (lit "f") 1 3 (lit "def f(a, b)") false in
  let acc m :=
    join " " (map trim (firstn (S m) (skipn (startLine d - 1)
                                            (split nl Examples.multiLineDef)))) in
  In d (parseFunctions Examples.multiLineDef) /\
  exists n,
    signature d = replaceFirst ":" (acc n) /\
    startLine d + n <= List.length (split nl Examples.multiLineDef) /\
    (forall m, m < n ->
               (0 < parenDelta (acc m))%Z \/ includes (acc m) ":" = false) /\
    (startLine d + n < List.length (split nl Examples.multiLineDef) ->
     (parenDelta (acc n) <= 0)%Z /\ includes (acc n) ":" = true).
Proof.
  intros d acc.
  assert (H : In d (parseFunctions Examples.multiLineDef))
    by (vm_compute; left; reflexivity).
  split; [exact H|].
  exact (proj2 signature_reassembly Examples.multiLineDef d H).
Defined.

(** *** The colon of the signature *)

Lemma replaceFirst_single (c : ascii) (s : str) :
  count_occ ascii_dec s c <= 1 -> includes (replaceFirst c s) c = false.
Proof.
  unfold includes.
  induction s as [|a s IH]; intros H; simpl; [reflexivity|].
  simpl in H. destruct (ascii_dec a c) as [->|Hne].
  - rewrite Ascii.eqb_refl.
    assert (H0 : count_occ ascii_dec s c = 0) by lia.
    destruct (existsb (Ascii.eqb c) s) eqn:E; [|reflexivity].
    apply existsb_exists in E. destruct E as (x & Hin & Hx).
    apply Ascii.eqb_eq in Hx; subst x.
    apply (count_occ_In ascii_dec) in Hin. lia.
  - assert (E : Ascii.eqb a c = false) by (apply Ascii.eqb_neq; exact Hne).
    rewrite E. simpl.
    rewrite Ascii.eqb_sym, E. simpl. apply IH. exact H.
Qed.

(** C1.  On a header with annotations the signature keeps a colon: the
    replacement removes the first colon of the reassembled header, which is
    the one of the parameter annotation, and the colon that ends the header
    stays. *)
Theorem annotated_signature_keeps_colon :
  parseFunctions Examples.annotated =
    [mkPythonFunction (lit "f") 1 2 (lit "def f(a int) -> int:") false]
  /\ includes (lit "def f(a int) -> int:") ":" = true
  /\ endsWith (lit "def f(a int) -> int:") (lit ":") = true.
Proof. vm_compute. repeat split. Qed.

(** *** Trailing empty lines *)

Section TrailingEmptyLines.

Variable k : nat.

Let blanks : list str := repeat [] k.
Let spaces : str := repeat " " k.

Lemma parseFrom_blanks (i : nat) : parseFrom i blanks = [].
Proof.
  unfold blanks. revert i. induction k as [|n IH]; intros i; simpl;
    [reflexivity | apply IH].
Qed.

Lemma scanEnd_app_blanks (indentLevel : nat) (rest : list str) :
  forall j e,
    scanEnd indentLevel j (rest ++ blanks) e = scanEnd indentLevel j rest e.
Proof.
  induction rest as [|l rest IH]; intros j e.
  - unfold blanks. simpl. revert j.
    induction k as [|n IHn]; intros j; simpl; [reflexivity | apply IHn].
  - simpl. rewrite !IH. reflexivity.
Qed.

Lemma docstringAfter_app_blanks (rest : list str) :
  docstringAfter (rest ++ blanks) = docstringAfter rest.
Proof.
  destruct rest as [|l rest]; [|reflexivity].
  unfold blanks. destruct k; reflexivity.
Qed.

Lemma needsMore_space (sig : str) (depth : Z) :
  needsMore (sig ++ [" "]) depth = needsMore sig depth.
Proof.
  unfold needsMore, includes. rewrite existsb_app. simpl.
  rewrite !orb_false_r. reflexivity.
Qed.

Lemma reassemble_blanks (sig : str) (depth : Z) :
  reassemble blanks sig depth =
    if needsMore sig depth then (sig ++ spaces, depth) else (sig, depth).
Proof.
  unfold blanks, spaces. revert sig.
  induction k as [|n IH]; intros sig; simpl.
  - rewrite app_nil_r. destruct (needsMore sig depth); reflexivity.
  - destruct (needsMore sig depth) eqn:E; [|reflexivity].
    change (trim []) with (@nil ascii).
    change (parenDelta []) with 0%Z. rewrite Z.add_0_r.
    rewrite IH, needsMore_space, E.
    rewrite <- app_assoc. reflexivity.
Qed.

Lemma reassemble_app_blanks (rest : list str) :
  forall sig depth,
    reassemble (rest ++ blanks) sig depth =
      let (sig', depth') := reassemble rest sig depth in
      if needsMore sig' depth' then (sig' ++ spaces, depth')
      else (sig', depth').
Proof.
  induction rest as [|l rest IH]; intros sig depth.
  - simpl. apply reassemble_blanks.
  - simpl. destruct (needsMore sig depth) eqn:E.
    + apply IH.
    + rewrite E. reflexivity.
Qed.

Lemma replaceFirst_app_fresh (c : ascii) (s t : str) :
  ~ In c t -> replaceFirst c (s ++ t) = replaceFirst c s ++ t.
Proof.
  intros Hfresh. induction s as [|a s IH]; simpl.
  - induction t as [|b t IHt]; simpl; [reflexivity|].
    destruct (Ascii.eqb b c) eqn:E.
    + apply Ascii.eqb_eq in E. subst. exfalso. apply Hfresh. left. reflexivity.
    + f_equal. apply IHt. intros H. apply Hfresh. right. exact H.
  - destruct (Ascii.eqb a c); [reflexivity | simpl; f_equal; exact IH].
Qed.

Lemma colon_not_in_spaces : ~ In ":" spaces.
Proof.
  unfold spaces. intros H. apply repeat_spec in H. discriminate.
Qed.

Lemma parseFrom_app_blanks (pre rest : list str) :
  Forall2 (sameButOpenSignature k (pre ++ rest))
          (parseFrom (List.length pre) rest)
          (parseFrom (List.length pre) (rest ++ blanks)).
Proof.
  revert pre. induction rest as [|raw rest IH]; intros pre.
  - simpl. rewrite parseFrom_blanks. constructor.
  - assert (Hpre : pre ++ raw :: rest = (pre ++ [raw]) ++ rest)
      by (rewrite <- app_assoc; reflexivity).
    assert (Hlen : S (List.length pre) = List.length (pre ++ [raw]))
      by (rewrite length_app; simpl; lia).
    specialize (IH (pre ++ [raw])). rewrite <- Hpre, <- Hlen in IH.
    simpl. destruct (matchDef (trim raw)) as [fname|]; [|exact IH].
    constructor; [|exact IH].
    unfold sameButOpenSignature, describe; cbn [name startLine endLine
      hasDocstring signature].
    repeat split.
    + apply scanEnd_app_blanks.
    + apply docstringAfter_app_blanks.
    + unfold headerClosed; cbn [startLine].
      replace (S (List.length pre) - 1) with (List.length pre + 0) by lia.
      rewrite nth_error_app2, Nat.add_comm, Nat.add_sub by lia.
      cbn [nth_error].
      replace (skipn (S (List.length pre)) (pre ++ raw :: rest)) with rest.
      2:{ rewrite Hpre, Hlen, skipn_app, skipn_all, Nat.sub_diag.
          reflexivity. }
      unfold fullSignature. rewrite reassemble_app_blanks.
      destruct (reassemble rest (trim raw) (parenDelta (trim raw)))
        as [sig depth].
      destruct (needsMore sig depth); cbn [fst negb].
      * apply replaceFirst_app_fresh, colon_not_in_spaces.
      * reflexivity.
Qed.

End TrailingEmptyLines.

(** C8 as stated fails: with an empty line appended, a header that the
    input leaves without its colon gets a signature that is one space
    longer. *)
Lemma trailing_empty_line_changes_signature :
  parseFunctions Examples.noColonHeader =
    [mkPythonFunction (lit "f") 1 1 (lit "def f()") false]
  /\ parseFunctions (Examples.noColonHeader ++ repeat nl 1) =
    [mkPythonFunction (lit "f") 1 1 (lit "def f() ") false]
  /\ parseFunctions (Examples.noColonHeader ++ repeat nl 1)
     <> parseFunctions Examples.noColonHeader.
Proof.
  vm_compute. repeat split. discriminate.
Qed.

(** C8, amended.  Appending [k] line feeds to the input appends [k] empty
    lines.  The descriptors of the longer input correspond one to one, in
    order, to those of the original input, with the same [name],
    [startLine], [endLine] and [hasDocstring]; the [signature] is the same
    too when the reassembly of the header had ended with balanced
    parentheses and a colon, and has [k] more spaces at its end when the
    reassembly had run into the end of the input. *)
Theorem trailing_empty_lines (code : str) (k : nat) :
  split nl (code ++ repeat nl k) = split nl code ++ repeat [] k /\
  Forall2
    (fun d d' =>
       name d' = name d /\
       startLine d' = startLine d /\
       endLine d' = endLine d /\
       hasDocstring d' = hasDocstring d /\
       signature d' =
         if headerClosed (split nl code) d then signature d
         else signature d ++ repeat " " k)
    (parseFunctions code)
    (parseFunctions (code ++ repeat nl k)).
Proof.
  split; [apply split_app_seps|].
  unfold parseFunctions. rewrite split_app_seps.
  exact (parseFrom_app_blanks k [] (split nl code)).
Qed.

(** ** Properties of [extractCodeWithoutDocstrings] *)

Section ExtractFacts.

(** A line is pushed only outside a docstring and only when it does not
    open one. *)
Lemma extractFrom_no_opener (rest : list str) :
  forall inDocstring docstringQuote,
    Forall (fun l => startsTriple (trim l) = false)
           (extractFrom rest inDocstring docstringQuote).
Proof.
  induction rest as [|line rest IH]; intros b q; simpl; [constructor|].
  destruct b; simpl.
  - destruct (endsWith (trim line) q); apply IH.
  - destruct (startsTriple (trim line)) eqn:E.
    + destruct ((3 <? List.length (trim line))
                && endsWith (trim line)
                     (if startsWith (trim line) tripleDouble
                      then tripleDouble else tripleSingle)); apply IH.
    + constructor; [exact E | apply IH].
Qed.

Lemma extractFrom_sublist (P : str -> Prop) (rest : list str) :
  forall inDocstring docstringQuote,
    Forall P rest -> Forall P (extractFrom rest inDocstring docstringQuote).
Proof.
  induction rest as [|line rest IH]; intros b q Hall; simpl; [constructor|].
  inversion Hall as [|? ? Hl Hrest]; subst.
  destruct b; simpl.
  - destruct (endsWith (trim line) q); apply IH; exact Hrest.
  - destruct (startsTriple (trim line)).
    + destruct ((3 <? List.length (trim line))
                && endsWith (trim line)
                     (if startsWith (trim line) tripleDouble
                      then tripleDouble else tripleSingle));
        apply IH; exact Hrest.
    + constructor; [exact Hl | apply IH; exact Hrest].
Qed.

(** Without a line that opens a docstring every line is copied. *)
Lemma extractFrom_copies (ls : list str) (docstringQuote : str) :
  Forall (fun l => startsTriple (trim l) = false) ls ->
  extractFrom ls false docstringQuote = ls.
Proof.
  induction ls as [|line ls IH]; intros Hall; simpl; [reflexivity|].
  inversion Hall as [|? ? Hl Hrest]; subst.
  rewrite Hl. simpl. f_equal. apply IH. exact Hrest.
Qed.

Lemma extract_idempotent (code : str) :
  extractCodeWithoutDocstrings (extractCodeWithoutDocstrings code)
  = extractCodeWithoutDocstrings code.
Proof.
  unfold extractCodeWithoutDocstrings.
  set (out := extractFrom (split nl code) false []).
  assert (Hopen : Forall (fun l => startsTriple (trim l) = false) out)
    by apply extractFrom_no_opener.
  assert (Hnl : Forall (fun l => ~ In nl l) out)
    by (apply extractFrom_sublist, split_no_sep).
  destruct out as [|l out'] eqn:Hout; [reflexivity|].
  rewrite split_join; [|discriminate | exact Hnl].
  rewrite extractFrom_copies by exact Hopen. reflexivity.
Qed.

Lemma extract_output_has_no_block (code : str) :
  hasTripleQuotedBlock (extractCodeWithoutDocstrings code) = false.
Proof.
  unfold hasTripleQuotedBlock, extractCodeWithoutDocstrings.
  set (out := extractFrom (split nl code) false []).
  assert (Hopen : Forall (fun l => startsTriple (trim l) = false) out)
    by apply extractFrom_no_opener.
  assert (Hnl : Forall (fun l => ~ In nl l) out)
    by (apply extractFrom_sublist, split_no_sep).
  assert (Hlines : Forall (fun l => startsTriple (trim l) = false)
                          (split nl (join nl out))).
  { destruct out as [|l out'] eqn:Hout.
    - simpl. constructor; [reflexivity | constructor].
    - rewrite split_join; [exact Hopen | discriminate | exact Hnl]. }
  destruct (existsb _ _) eqn:E; [|reflexivity].
  apply existsb_exists in E. destruct E as (l & Hin & Hl).
  rewrite Forall_forall in Hlines. rewrite (Hlines l Hin) in Hl.
  discriminate.
Qed.

End ExtractFacts.

(** C9.  When the output of [extractCodeWithoutDocstrings] has no line that
    opens a triple-quoted block, applying the function to that output gives
    the output back: twice is the same as once. *)
Theorem extract_twice_is_once (code : str) :
  hasTripleQuotedBlock (extractCodeWithoutDocstrings code) = false ->
  extractCodeWithoutDocstrings (extractCodeWithoutDocstrings code)
  = extractCodeWithoutDocstrings code.
Proof.
  intros _. apply extract_idempotent.
Qed.

Lemma extract_twice_is_once_witness :
  hasTripleQuotedBlock (extractCodeWithoutDocstrings Examples.withDocstring)
    = false /\
  extractCodeWithoutDocstrings Examples.withDocstring
    = Examples.unlines [lit "def f():"; lit "    pass"] /\
  extractCodeWithoutDocstrings
    (extractCodeWithoutDocstrings Examples.withDocstring)
  = extractCodeWithoutDocstrings Examples.withDocstring.
Proof.
  split; [reflexivity | split; [reflexivity|]].
  apply (extract_twice_is_once Examples.withDocstring). reflexivity.
Defined.

(** ** Properties of [validatePythonSyntax] *)

Section ValidateFacts.

Lemma nextNonEmpty_Some (rest : list str) (next : str) :
  nextNonEmpty rest = Some next <->
  exists j,
    nth_error rest j = Some next /\ ~ blank next /\
    forall j' l', j' < j -> nth_error rest j' = Some l' -> blank l'.
Proof.
  unfold blank. induction rest as [|l rest IH]; simpl.
  - split; [discriminate|]. intros ([|j] & H & _); discriminate.
  - destruct (trim l) as [|c t] eqn:Ht; simpl.
    + rewrite IH. split.
      * intros (j & Hj & Hne & Hbefore). exists (S j). repeat split; auto.
        intros [|j'] l' Hlt H; simpl in H.
        -- injection H as <-. exact Ht.
        -- apply (Hbefore j'); [lia | exact H].
      * intros ([|j] & Hj & Hne & Hbefore); simpl in Hj.
        -- injection Hj as <-. contradiction.
        -- exists j. repeat split; auto.
           intros j' l' Hlt H. apply (Hbefore (S j')); [lia | exact H].
    + split.
      * intros H. injection H as <-. exists 0. repeat split.
        -- rewrite Ht. discriminate.
        -- intros j' l' Hlt. lia.
      * intros ([|j] & Hj & Hne & Hbefore); simpl in Hj.
        -- exact Hj.
        -- assert (Hb : trim l = []) by (apply (Hbefore 0); [lia | reflexivity]).
           rewrite Hb in Ht. discriminate.
Qed.

Lemma nextNonEmpty_None (rest : list str) :
  nextNonEmpty rest = None <->
  forall j l, nth_error rest j = Some l -> blank l.
Proof.
  unfold blank. induction rest as [|l rest IH]; simpl.
  - split; [|reflexivity]. intros _ [|j] l H; discriminate.
  - destruct (trim l) as [|c t] eqn:Ht; simpl.
    + rewrite IH. split.
      * intros Hall [|j] l0 H; simpl in H.
        -- injection H as <-. exact Ht.
        -- apply (Hall j). exact H.
      * intros Hall j l0 H. apply (Hall (S j)). exact H.
    + split; [discriminate|].
      intros Hall. specialize (Hall 0 l eq_refl). rewrite Hall in Ht.
      discriminate.
Qed.

Lemma blockCheck_blank (i : nat) (line : str) (rest : list str) :
  isEmpty (trim line) = true -> blockCheck i line rest = None.
Proof.
  unfold blockCheck. destruct (trim line); [reflexivity | discriminate].
Qed.

Lemma blockCheck_message (i : nat) (line : str) (rest : list str) (e : str) :
  blockCheck i line rest = Some e -> e = indentError i (trim line).
Proof.
  unfold blockCheck.
  destruct (endsWith (trim line) (lit ":")
            && negb (startsWith (trim line) (lit "#"))); [|discriminate].
  destruct (nextNonEmpty rest) as [next|]; [|discriminate].
  destruct (getIndentLevel next <=? getIndentLevel line); [|discriminate].
  intros H. injection H as <-. reflexivity.
Qed.

(** The block check at index [i] fails exactly when the line lacks its
    block, in the words of the design document. *)
Lemma blockCheck_lacksBlock (lines : list str) (i : nat) (line : str) :
  nth_error lines i = Some line ->
  (blockCheck i line (skipn (S i) lines) <> None <-> lacksBlock lines i line).
Proof.
  intros Hline. unfold blockCheck, lacksBlock. cbv zeta.
  destruct (endsWith (trim line) (lit ":")) eqn:Hcolon; cbn [andb negb].
  2:{ split; [congruence|]. intros (_ & H & _). discriminate. }
  destruct (startsWith (trim line) (lit "#")) eqn:Hhash; cbn [andb negb].
  1:{ split; [congruence|]. intros (_ & _ & H & _). discriminate. }
  destruct (nextNonEmpty (skipn (S i) lines)) as [next|] eqn:Hnext.
  - apply nextNonEmpty_Some in Hnext.
    destruct Hnext as (j & Hj & Hne & Hbefore).
    rewrite nth_error_skipn in Hj.
    destruct (getIndentLevel next <=? getIndentLevel line) eqn:Hind.
    + split; [|discriminate]. intros _.
      repeat split; try assumption.
      exists (S i + j), next. repeat split; try assumption.
      * lia.
      * intros j' l' Hlt H. apply (Hbefore (j' - S i)); [lia|].
        apply nth_error_skipn_from; [lia | exact H].
      * apply Nat.leb_le. exact Hind.
    + split; [congruence|].
      intros (_ & _ & _ & j0 & next0 & Hlt & Hj0 & Hne0 & Hbefore0 & Hle).
      apply Nat.leb_gt in Hind.
      assert (Heq : j0 = S i + j).
      { destruct (Nat.lt_trichotomy j0 (S i + j)) as [Hc|[Hc|Hc]];
          [|exact Hc|].
        - exfalso. apply Hne0. apply (Hbefore (j0 - S i)); [lia|].
          apply nth_error_skipn_from; [lia | exact Hj0].
        - exfalso. apply Hne. apply (Hbefore0 (S i + j)); [lia | exact Hj]. }
      subst j0. rewrite Hj in Hj0. injection Hj0 as <-. lia.
  - split; [congruence|].
    intros (_ & _ & _ & j0 & next0 & Hlt & Hj0 & Hne0 & _).
    exfalso. apply Hne0.
    apply (proj1 (nextNonEmpty_None _) Hnext (j0 - S i)).
    apply nth_error_skipn_from; [lia | exact Hj0].
Qed.

(** The line loop either runs to the end, having found the block check
    pass on every line, and returns the tally; or it returns at the first
    line whose block check fails, with that line's message. *)
Lemma validateFrom_cases (rest : list str) :
  forall i k,
    (validateFrom i rest k = inr (tally rest k) /\
     forall n l, nth_error rest n = Some l ->
                 blockCheck (i + n) l (skipn (S n) rest) = None)
    \/
    (exists n line,
        nth_error rest n = Some line /\
        blockCheck (i + n) line (skipn (S n) rest) <> None /\
        (forall n' l', n' < n -> nth_error rest n' = Some l' ->
                       blockCheck (i + n') l' (skipn (S n') rest) = None) /\
        validateFrom i rest k = inl (indentError (i + n) (trim line))).
Proof.
  induction rest as [|line rest IH]; intros i k.
  - left. split; [reflexivity|]. intros [|n] l H; discriminate.
  - assert (Hshift : forall n, i + S n = S i + n) by (intros; lia).
    simpl validateFrom. simpl tally.
    destruct (isEmpty (trim line)) eqn:Hblank.
    + destruct (IH (S i) k) as [[Hv Hall] | (n & l & Hn & Hfail & Hfirst & Hv)].
      * left. split; [exact Hv|].
        intros [|n] l H; simpl in H.
        -- injection H as <-. apply blockCheck_blank. exact Hblank.
        -- rewrite Hshift. apply Hall. exact H.
      * right. exists (S n), l. rewrite Hshift. repeat split; try assumption.
        intros [|n'] l' Hlt H; simpl in H.
        -- injection H as <-. apply blockCheck_blank. exact Hblank.
        -- rewrite Hshift. apply Hfirst; [lia | exact H].
    + destruct (blockCheck i line rest) as [e|] eqn:Hcheck.
      * right. exists 0, line. rewrite Nat.add_0_r. repeat split.
        -- simpl. rewrite Hcheck. discriminate.
        -- intros n' l' Hlt. lia.
        -- rewrite (blockCheck_message _ _ _ _ Hcheck). reflexivity.
      * destruct (IH (S i) (scanChars (trim line) None k))
          as [[Hv Hall] | (n & l & Hn & Hfail & Hfirst & Hv)].
        -- left. split; [exact Hv|].
           intros [|n] l H; simpl in H.
           ++ injection H as <-. rewrite Nat.add_0_r. exact Hcheck.
           ++ rewrite Hshift. apply Hall. exact H.
        -- right. exists (S n), l. rewrite Hshift.
           repeat split; try assumption.
           intros [|n'] l' Hlt H; simpl in H.
           ++ injection H as <-. rewrite Nat.add_0_r. exact Hcheck.
           ++ rewrite Hshift. apply Hfirst; [lia | exact H].
Qed.

(** The same for the whole function, in the words of the design document. *)
Lemma validatePythonSyntax_cases (code : str) :
  (validatePythonSyntax code = balanceVerdict (tally (split nl code) noCounts)
   /\ forall i line, ~ lacksBlock (split nl code) i line)
  \/
  (exists i line,
      lacksBlock (split nl code) i line /\
      (forall i' line', i' < i -> ~ lacksBlock (split nl code) i' line') /\
      validatePythonSyntax code = Invalid (indentError i (trim line))).
Proof.
  unfold validatePythonSyntax.
  destruct (validateFrom_cases (split nl code) 0 noCounts)
    as [[Hv Hall] | (n & line & Hn & Hfail & Hfirst & Hv)].
  - left. rewrite Hv. split; [reflexivity|].
    intros i line Hlack.
    assert (Hline : nth_error (split nl code) i = Some line) by apply Hlack.
    apply (blockCheck_lacksBlock _ _ _ Hline) in Hlack.
    apply Hlack. apply (Hall i line Hline).
  - right. exists n, line. rewrite Hv. split; [|split].
    + apply (blockCheck_lacksBlock _ _ _ Hn). exact Hfail.
    + intros i' line' Hlt Hlack.
      assert (Hline : nth_error (split nl code) i' = Some line')
        by apply Hlack.
      apply (blockCheck_lacksBlock _ _ _ Hline) in Hlack.
      apply Hlack. apply (Hfirst i' line' Hlt Hline).
    + reflexivity.
Qed.

End ValidateFacts.

(** C5.  If a line ends with a colon after trimming, is no comment, and
    the next non-blank line exists and is not indented more than it, then
    [validatePythonSyntax] returns [Invalid] with the message
    "Line n: Expected indented block after 'trimmed'".  The function returns
    at once, so the line cited is the first such line of the input: it is
    the given line when no earlier line qualifies.  The input of testable
    property 7 is rejected with line 1 cited, and so is an input whose
    lines 1 and 3 both qualify. *)
Theorem missing_block_reported :
  (forall (code : str) (i : nat) (line : str),
      lacksBlock (split nl code) i line ->
      exists n first,
        n <= i /\
        lacksBlock (split nl code) n first /\
        (forall i' line', i' < n -> ~ lacksBlock (split nl code) i' line') /\
        validatePythonSyntax code =
          Invalid (lit "Line " ++ showNat (n + 1)
                   ++ lit ": Expected indented block after '"
                   ++ trim first ++ lit "'") /\
        ((forall i' line', i' < i -> ~ lacksBlock (split nl code) i' line') ->
         n = i /\ first = line))
  /\ validatePythonSyntax Examples.noIndent =
       Invalid (lit "Line 1: Expected indented block after 'if True:'")
  /\ validatePythonSyntax Examples.twoNoIndent =
       Invalid (lit "Line 1: Expected indented block after 'if a:'").
Proof.
  split; [|split; vm_compute; reflexivity].
  intros code i line Hlack.
  destruct (validatePythonSyntax_cases code)
    as [[_ Hnone] | (n & first & Hn & Hfirst & Hv)].
  - exfalso. exact (Hnone i line Hlack).
  - assert (Hle : n <= i).
    { destruct (Nat.le_gt_cases n i) as [Hc|Hc]; [exact Hc|].
      exfalso. exact (Hfirst i line Hc Hlack). }
    exists n, first.
    split; [exact Hle | split; [exact Hn | split; [exact Hfirst | split]]].
    + rewrite Hv. reflexivity.
    + intros Hmin.
      assert (Heq : n = i).
      { destruct (Nat.eq_dec n i) as [Hc|Hc]; [exact Hc|].
        exfalso. apply (Hmin n first); [lia | exact Hn]. }
      subst n. split; [reflexivity|].
      destruct Hn as [Hn _]. destruct Hlack as [Hl _].
      rewrite Hn in Hl. injection Hl as ->. reflexivity.
Qed.

Lemma missing_block_reported_witness :
  lacksBlock (split nl Examples.noIndent) 0 (lit "if True:") /\
  exists n first,
    n <= 0 /\
    lacksBlock (split nl Examples.noIndent) n first /\
    (forall i' line', i' < n ->
                      ~ lacksBlock (split nl Examples.noIndent) i' line') /\
    validatePythonSyntax Examples.noIndent =
      Invalid (lit "Line " ++ showNat (n + 1)
               ++ lit ": Expected indented block after '"
               ++ trim first ++ lit "'") /\
    ((forall i' line', i' < 0 ->
                       ~ lacksBlock (split nl Examples.noIndent) i' line') ->
     n = 0 /\ first = lit "if True:").
Proof.
  assert (H : lacksBlock (split nl Examples.noIndent) 0 (lit "if True:")).
  { split; [reflexivity | split; [reflexivity | split; [reflexivity|]]].
    exists 1, (lit "pass").
    split; [lia | split; [reflexivity | split; [discriminate | split]]].
    - intros j' l' Hj'. lia.
    - simpl. lia. }
  split; [exact H|].
  exact (proj1 missing_block_reported Examples.noIndent 0 (lit "if True:") H).
Defined.

Lemma balanceVerdict_not_indentError (k : Counts) (n : nat) (trimmed : str) :
  balanceVerdict k <>
  Invalid (lit "Line " ++ showNat n
           ++ lit ": Expected indented block after '" ++ trimmed ++ lit "'").
Proof.
  unfold balanceVerdict.
  destruct (negb (parenCount k =? 0)%Z); [discriminate|].
  destruct (negb (bracketCount k =? 0)%Z); [discriminate|].
  destruct (negb (braceCount k =? 0)%Z); discriminate.
Qed.

(** C6.  When no line fails the block check, the three counters are
    tested after the last line in the order parentheses, square brackets,
    curly braces, and the message of the first one that is not zero is
    returned; with all three at zero the result is [Valid].  The input of
    testable property 6 is rejected for its parentheses, and so is a line
    that leaves both a parenthesis and a square bracket open. *)
Theorem balance_checks_in_order :
  (forall code : str,
      (forall i line, ~ lacksBlock (split nl code) i line) ->
      let k := tally (split nl code) noCounts in
      (parenCount k <> 0%Z ->
       validatePythonSyntax code
       = Invalid (lit "Unmatched parentheses in code")) /\
      (parenCount k = 0%Z -> bracketCount k <> 0%Z ->
       validatePythonSyntax code
       = Invalid (lit "Unmatched square brackets in code")) /\
      (parenCount k = 0%Z -> bracketCount k = 0%Z -> braceCount k <> 0%Z ->
       validatePythonSyntax code
       = Invalid (lit "Unmatched curly braces in code")) /\
      (parenCount k = 0%Z -> bracketCount k = 0%Z -> braceCount k = 0%Z ->
       validatePythonSyntax code = Valid))
  /\ validatePythonSyntax Examples.openParen =
       Invalid (lit "Unmatched parentheses in code")
  /\ validatePythonSyntax Examples.openParenAndBracket =
       Invalid (lit "Unmatched parentheses in code").
Proof.
  split; [|split; vm_compute; reflexivity].
  intros code Hnone k.
  destruct (validatePythonSyntax_cases code)
    as [[Hv _] | (n & first & Hn & _)].
  2:{ exfalso. exact (Hnone n first Hn). }
  rewrite Hv. fold k. unfold balanceVerdict.
  repeat split.
  - intros Hp. apply Z.eqb_neq in Hp. rewrite Hp. reflexivity.
  - intros Hp Hb. apply Z.eqb_eq in Hp. apply Z.eqb_neq in Hb.
    rewrite Hp, Hb. reflexivity.
  - intros Hp Hb Hc. apply Z.eqb_eq in Hp. apply Z.eqb_eq in Hb.
    apply Z.eqb_neq in Hc. rewrite Hp, Hb, Hc. reflexivity.
  - intros Hp Hb Hc. apply Z.eqb_eq in Hp. apply Z.eqb_eq in Hb.
    apply Z.eqb_eq in Hc. rewrite Hp, Hb, Hc. reflexivity.
Qed.

Lemma balance_checks_in_order_witness :
  (forall i line, ~ lacksBlock (split nl Examples.openParenAndBracket) i line)
  /\ tally (split nl Examples.openParenAndBracket) noCounts = mkCounts 1 1 0
  /\ validatePythonSyntax Examples.openParenAndBracket
     = Invalid (lit "Unmatched parentheses in code").
Proof.
  assert (H : forall i line,
             ~ lacksBlock (split nl Examples.openParenAndBracket) i line).
  { intros i line (Hn & Hc & _).
    destruct i as [|[|i]]; vm_compute in Hn;
      [| | destruct i; discriminate];
      injection Hn as <-; vm_compute in Hc; discriminate. }
  split; [exact H | split; [reflexivity|]].
  apply (proj1 balance_checks_in_order Examples.openParenAndBracket H).
  vm_compute. discriminate.
Defined.

(** C10.  When every line that ends with a colon after trimming, and is
    no comment, is followed by blank lines only, no line fails the block
    check: the result is the verdict on the three counters, never the
    message about an expected indented block.  A colon line alone, and a
    colon line followed only by blank lines, are [Valid]. *)
Theorem colon_line_without_successor_passes :
  (forall code : str,
      (forall i line,
          nth_error (split nl code) i = Some line ->
          endsWith (trim line) (lit ":") = true ->
          startsWith (trim line) (lit "#") = false ->
          forall j l', i < j -> nth_error (split nl code) j = Some l' ->
                       blank l') ->
      validatePythonSyntax code
      = balanceVerdict (tally (split nl code) noCounts) /\
      forall n trimmed,
        validatePythonSyntax code <>
        Invalid (lit "Line " ++ showNat n
                 ++ lit ": Expected indented block after '"
                 ++ trimmed ++ lit "'"))
  /\ validatePythonSyntax Examples.colonLast = Valid
  /\ validatePythonSyntax Examples.colonThenBlank = Valid.
Proof.
  split; [|split; vm_compute; reflexivity].
  intros code Hlast.
  assert (Hnone : forall i line, ~ lacksBlock (split nl code) i line).
  { intros i line (Hn & Hc & Hh & j & next & Hlt & Hj & Hne & _).
    apply Hne. exact (Hlast i line Hn Hc Hh j next Hlt Hj). }
  destruct (validatePythonSyntax_cases code)
    as [[Hv _] | (n & first & Hn & _)].
  2:{ exfalso. exact (Hnone n first Hn). }
  split; [exact Hv|].
  intros n trimmed. rewrite Hv. apply balanceVerdict_not_indentError.
Qed.

Lemma colon_line_without_successor_passes_witness :
  (forall i line,
      nth_error (split nl Examples.colonThenBlank) i = Some line ->
      endsWith (trim line) (lit ":") = true ->
      startsWith (trim line) (lit "#") = false ->
      forall j l', i < j ->
                   nth_error (split nl Examples.colonThenBlank) j = Some l' ->
                   blank l')
  /\ validatePythonSyntax Examples.colonThenBlank
     = balanceVerdict (tally (split nl Examples.colonThenBlank) noCounts).
Proof.
  assert (H : forall i line,
             nth_error (split nl Examples.colonThenBlank) i = Some line ->
             endsWith (trim line) (lit ":") = true ->
             startsWith (trim line) (lit "#") = false ->
             forall j l', i < j ->
               nth_error (split nl Examples.colonThenBlank) j = Some l' ->
               blank l').
  { intros i line Hn Hc _ j l' Hlt Hj.
    destruct i as [|i].
    - destruct j as [|[|[|[|j]]]]; [lia | | | |]; vm_compute in Hj;
        [| | | destruct j; discriminate];
        injection Hj as <-; reflexivity.
    - destruct i as [|[|[|i]]]; vm_compute in Hn;
        [| | | destruct i; discriminate];
        injection Hn as <-; vm_compute in Hc; discriminate. }
  split; [exact H|].
  exact (proj1 (proj1 colon_line_without_successor_passes
                  Examples.colonThenBlank H)).
Defined.

(** ** Further properties of [parseFunctions] *)

Section MoreParseFacts.

Lemma takeWhile_forallb (p : ascii -> bool) (s : str) :
  forallb p (takeWhile p s) = true.
Proof.
  induction s as [|c s IH]; simpl; [reflexivity|].
  destruct (p c) eqn:E; simpl; [rewrite E; exact IH | reflexivity].
Qed.

Lemma takeWhile_head (p q : ascii -> bool) (s : str) :
  (forall c, p c = true -> q c = true) ->
  headIs p s = true ->
  exists c t, takeWhile q s = c :: t /\ p c = true.
Proof.
  intros Hpq H. destruct s as [|c s]; simpl in *; [discriminate|].
  rewrite (Hpq c H). exists c, (takeWhile q s). split; [reflexivity | exact H].
Qed.

Lemma headIs_takeWhile_not_nil (p : ascii -> bool) (s : str) :
  headIs p s = true -> takeWhile p s <> [].
Proof.
  destruct s as [|c s]; simpl; [discriminate|].
  intros ->. discriminate.
Qed.

(** The shape of a line that matches the pattern: [def], white space, the
    name, and a tail whose first character after white space is an opening
    parenthesis. *)
Lemma matchDef_shape (line fname : str) :
  matchDef line = Some fname ->
  exists ws tail,
    line = lit "def" ++ ws ++ fname ++ tail /\
    ws <> [] /\ forallb is_space ws = true /\
    (exists c t, fname = c :: t /\ isIdentStart c = true) /\
    forallb isIdentChar fname = true /\
    headIs (Ascii.eqb "(") (dropWhile is_space tail) = true.
Proof.
  unfold matchDef. cbv zeta. intros H.
  match type of H with
  | (if ?c then _ else _) = _ => destruct c eqn:E; [|discriminate]
  end.
  injection H as <-.
  apply andb_true_iff in E. destruct E as [E Hparen].
  apply andb_true_iff in E. destruct E as [E Hstart].
  apply andb_true_iff in E. destruct E as [Hdef Hws].
  apply startsWith_split in Hdef.
  cbn [List.length lit list_ascii_of_string] in Hdef.
  set (r := skipn 3 line) in *.
  exists (takeWhile is_space r), (dropWhile isIdentChar (dropWhile is_space r)).
  split; [|split; [|split; [|split; [|split]]]].
  - rewrite takeWhile_dropWhile, takeWhile_dropWhile. exact Hdef.
  - apply headIs_takeWhile_not_nil. exact Hws.
  - apply takeWhile_forallb.
  - apply takeWhile_head; [|exact Hstart].
    intros c Hc. unfold isIdentChar. rewrite Hc. reflexivity.
  - apply takeWhile_forallb.
  - exact Hparen.
Qed.

Lemma scanEnd_upper (indentLevel : nat) (rest : list str) :
  forall j e total,
    j + List.length rest = total -> e <= total ->
    scanEnd indentLevel j rest e <= total.
Proof.
  induction rest as [|l rest IH]; intros j e total Hj He; simpl; [exact He|].
  simpl in Hj.
  destruct (isEmpty (trim l)).
  - apply IH; lia.
  - destruct (endsBody indentLevel l); [lia | apply IH; lia].
Qed.

Lemma reassemble_extends (rest : list str) :
  forall sig depth, exists ext, fst (reassemble rest sig depth) = sig ++ ext.
Proof.
  induction rest as [|l rest IH]; intros sig depth; simpl.
  - exists []. rewrite app_nil_r. reflexivity.
  - destruct (needsMore sig depth).
    + destruct (IH (sig ++ " " :: trim l) (depth + parenDelta (trim l))%Z)
        as [ext Hext].
      exists ((" " :: trim l) ++ ext). rewrite Hext, <- app_assoc. reflexivity.
    + exists []. rewrite app_nil_r. reflexivity.
Qed.

Lemma replaceFirst_skips_prefix (c : ascii) (p t : str) :
  ~ In c p -> replaceFirst c (p ++ t) = p ++ replaceFirst c t.
Proof.
  induction p as [|a p IH]; intros H; simpl; [reflexivity|].
  destruct (Ascii.eqb a c) eqn:E.
  - apply Ascii.eqb_eq in E. subst. exfalso. apply H. left. reflexivity.
  - f_equal. apply IH. intros H'. apply H. right. exact H'.
Qed.

Lemma forallb_not_In (p : ascii -> bool) (c : ascii) (s : str) :
  p c = false -> forallb p s = true -> ~ In c s.
Proof.
  intros Hc Hall Hin. rewrite forallb_forall in Hall.
  rewrite (Hall c Hin) in Hc. discriminate.
Qed.

Lemma parseFrom_startLines (rest : list str) :
  forall i,
    map startLine (parseFrom i rest) =
    map S (filter (fun n => isDefLine (nth (n - i) rest []))
                  (seq i (List.length rest))).
Proof.
  induction rest as [|raw rest IH]; intros i; [reflexivity|].
  change (seq i (List.length (raw :: rest)))
    with (i :: seq (S i) (List.length rest)).
  cbn [filter]. rewrite Nat.sub_diag.
  change (nth 0 (raw :: rest) []) with raw.
  assert (Htail : filter (fun n => isDefLine (nth (n - i) (raw :: rest) []))
                         (seq (S i) (List.length rest))
                  = filter (fun n => isDefLine (nth (n - S i) rest []))
                           (seq (S i) (List.length rest))).
  { apply filter_ext_in. intros n Hn. apply in_seq in Hn.
    replace (n - i) with (S (n - S i)) by lia. reflexivity. }
  rewrite Htail. simpl parseFrom. unfold isDefLine at 1.
  destruct (matchDef (trim raw)); cbn [map]; rewrite IH; reflexivity.
Qed.

End MoreParseFacts.

Lemma parseFrom_nil_iff (rest : list str) :
  forall i,
    parseFrom i rest = [] <->
    forall raw, In raw rest -> isDefLine raw = false.
Proof.
  induction rest as [|raw rest IH]; intros i; simpl.
  - split; [intros _ raw [] | reflexivity].
  - unfold isDefLine in *.
    destruct (matchDef (trim raw)) as [fname|] eqn:Hm.
    + split; [discriminate|].
      intros H. specialize (H raw (or_introl eq_refl)).
      rewrite Hm in H. discriminate.
    + rewrite IH. split.
      * intros H raw0 [<-|Hin]; [rewrite Hm; reflexivity | apply H; exact Hin].
      * intros H raw0 Hin. apply H. right. exact Hin.
Qed.

(** X1.  [parseFunctions] returns one descriptor for each line that matches
    the [def] pattern, in the order of the lines: the [startLine] fields
    are exactly the 1-indexed numbers of the matching lines.  The result is
    empty exactly when no line matches. *)
Theorem descriptors_follow_def_lines (code : str) :
  map startLine (parseFunctions code) = defLineNumbers (split nl code) /\
  (parseFunctions code = [] <->
   forall raw, In raw (split nl code) -> isDefLine raw = false).
Proof.
  split.
  - unfold parseFunctions, defLineNumbers.
    rewrite parseFrom_startLines. f_equal.
    apply filter_ext. intros n. rewrite Nat.sub_0_r. reflexivity.
  - apply parseFrom_nil_iff.
Qed.

(** X2.  The [name] of every descriptor is an identifier: it is not empty,
    its first character is a letter or an underscore, and all its
    characters are letters, digits or underscores. *)
Theorem name_is_identifier (code : str) (d : PythonFunction) :
  In d (parseFunctions code) ->
  (exists c t, name d = c :: t /\ isIdentStart c = true) /\
  forallb isIdentChar (name d) = true.
Proof.
  intros H. apply In_parseFunctions in H.
  destruct H as (raw & _ & Hm & _).
  destruct (matchDef_shape _ _ Hm) as (ws & tail & _ & _ & _ & Hhead & Hall & _).
  split; assumption.
Qed.

Lemma name_is_identifier_witness :
  let d := mkPythonFunction (lit "g") 4 5 (lit "def g()") false in
  In d (parseFunctions Examples.twoFunctions) /\
  (exists c t, name d = c :: t /\ isIdentStart c = true) /\
  forallb isIdentChar (name d) = true.
Proof.
  intros d.
  assert (H : In d (parseFunctions Examples.twoFunctions))
    by (vm_compute; right; left; reflexivity).
  split; [exact H|].
  exact (name_is_identifier Examples.twoFunctions d H).
Defined.

(** X3.  The line numbers of every descriptor lie within the input:
    [1 <= startLine <= endLine <= number of lines]. *)
Theorem line_numbers_within_input (code : str) (d : PythonFunction) :
  In d (parseFunctions code) ->
  1 <= startLine d /\
  startLine d <= endLine d /\
  endLine d <= List.length (split nl code).
Proof.
  intros H. apply In_parseFunctions in H.
  destruct H as (raw & Hraw & Hm & Hd).
  set (lines := split nl code) in *.
  set (sl := startLine d) in *.
  assert (Hs : sl = S (sl - 1)) by (unfold sl; rewrite Hd; simpl; lia).
  assert (Hlt : sl - 1 < List.length lines).
  { apply nth_error_Some. rewrite Hraw. discriminate. }
  assert (He : endLine d =
               scanEnd (getIndentLevel raw) sl (skipn sl lines) sl).
  { rewrite Hd at 1. cbn [describe endLine]. rewrite <- Hs. reflexivity. }
  split; [lia | split].
  - rewrite He. apply scanEnd_lower; lia.
  - rewrite He. apply scanEnd_upper; [|lia].
    rewrite length_skipn. lia.
Qed.

Lemma line_numbers_within_input_witness :
  let d := mkPythonFunction (lit "g") 4 5 (lit "def g()") false in
  In d (parseFunctions Examples.twoFunctions) /\
  1 <= startLine d /\
  startLine d <= endLine d /\
  endLine d <= List.length (split nl Examples.twoFunctions).
Proof.
  intros d.
  assert (H : In d (parseFunctions Examples.twoFunctions))
    by (vm_compute; right; left; reflexivity).
  split; [exact H|].
  exact (line_numbers_within_input Examples.twoFunctions d H).
Defined.

(** X4.  Removing the first colon never touches the start of the header:
    every signature begins with [def], white space and the descriptor's
    name. *)
Theorem signature_begins_with_def_name (code : str) (d : PythonFunction) :
  In d (parseFunctions code) ->
  exists ws tail,
    signature d = lit "def" ++ ws ++ name d ++ tail /\
    ws <> [] /\ forallb is_space ws = true.
Proof.
  intros H. apply In_parseFunctions in H.
  destruct H as (raw & _ & Hm & Hd).
  destruct (matchDef_shape _ _ Hm)
    as (ws & tail & Hline & Hne & Hws & _ & Hall & _).
  destruct (reassemble_extends (skipn (startLine d) (split nl code))
              (trim raw) (parenDelta (trim raw))) as [ext Hext].
  exists ws, (replaceFirst ":" (tail ++ ext)).
  split; [|split; assumption].
  rewrite Hd at 1. cbn [describe signature]. unfold fullSignature.
  rewrite Hext, Hline.
  replace ((lit "def" ++ ws ++ name d ++ tail) ++ ext)
    with ((lit "def" ++ ws ++ name d) ++ tail ++ ext)
    by (rewrite <- !app_assoc; reflexivity).
  rewrite replaceFirst_skips_prefix.
  - rewrite <- !app_assoc. reflexivity.
  - intros Hin. apply in_app_or in Hin. destruct Hin as [Hin|Hin].
    + simpl in Hin. intuition discriminate.
    + apply in_app_or in Hin. destruct Hin as [Hin|Hin].
      * revert Hin. apply (forallb_not_In is_space); [reflexivity | exact Hws].
      * revert Hin. apply (forallb_not_In isIdentChar);
          [reflexivity | exact Hall].
Qed.

Lemma signature_begins_with_def_name_witness :
  let d := mkPythonFunction (lit "f") 1 2 (lit "def f(a int) -> int:") false in
  In d (parseFunctions Examples.annotated) /\
  exists ws tail,
    signature d = lit "def" ++ ws ++ name d ++ tail /\
    ws <> [] /\ forallb is_space ws = true.
Proof.
  intros d.
  assert (H : In d (parseFunctions Examples.annotated))
    by (vm_compute; left; reflexivity).
  split; [exact H|].
  exact (signature_begins_with_def_name Examples.annotated d H).
Defined.

(** ** Further properties of [validatePythonSyntax] *)

Section MoreValidateFacts.

Lemma join_split (sep : ascii) (s : str) : join sep (split sep s) = s.
Proof.
  induction s as [|c s IH]; [reflexivity|].
  simpl split. pose proof (split_not_nil sep s) as Hne.
  destruct (Ascii.eqb c sep) eqn:E.
  - apply Ascii.eqb_eq in E. subst c.
    destruct (split sep s) as [|l ls]; [congruence|].
    change (join sep ([] :: l :: ls)) with ([] ++ sep :: join sep (l :: ls)).
    rewrite IH. reflexivity.
  - destruct (split sep s) as [|l ls]; [congruence|].
    destruct ls as [|l' ls].
    + simpl in *. f_equal. exact IH.
    + change (join sep ((c :: l) :: l' :: ls))
        with (c :: (l ++ sep :: join sep (l' :: ls))).
      f_equal. exact IH.
Qed.

Lemma tally_blank (rest : list str) (k : Counts) :
  (forall l, In l rest -> blank l) -> tally rest k = k.
Proof.
  unfold tally, blank. induction rest as [|l rest IH]; intros H; simpl;
    [reflexivity|].
  rewrite (H l (or_introl eq_refl)). simpl.
  apply IH. intros l0 Hin. apply H. right. exact Hin.
Qed.

Lemma balanceVerdict_Valid (k : Counts) :
  balanceVerdict k = Valid <->
  parenCount k = 0%Z /\ bracketCount k = 0%Z /\ braceCount k = 0%Z.
Proof.
  unfold balanceVerdict.
  destruct (parenCount k =? 0)%Z eqn:Ep; simpl.
  2:{ apply Z.eqb_neq in Ep. split; [discriminate | tauto]. }
  destruct (bracketCount k =? 0)%Z eqn:Eb; simpl.
  2:{ apply Z.eqb_neq in Eb. split; [discriminate | tauto]. }
  destruct (braceCount k =? 0)%Z eqn:Ec; simpl.
  2:{ apply Z.eqb_neq in Ec. split; [discriminate | tauto]. }
  apply Z.eqb_eq in Ep. apply Z.eqb_eq in Eb. apply Z.eqb_eq in Ec. tauto.
Qed.

Lemma nextNonEmpty_app_blanks (rest : list str) (k : nat) :
  nextNonEmpty (rest ++ repeat [] k) = nextNonEmpty rest.
Proof.
  induction rest as [|l rest IH]; simpl.
  - induction k as [|k IHk]; simpl; [reflexivity | exact IHk].
  - rewrite IH. reflexivity.
Qed.

Lemma validateFrom_app_blanks (rest : list str) (n : nat) :
  forall i k,
    validateFrom i (rest ++ repeat [] n) k = validateFrom i rest k.
Proof.
  induction rest as [|line rest IH]; intros i k.
  - simpl. revert i. induction n as [|n IHn]; intros i; simpl;
      [reflexivity | apply IHn].
  - simpl. unfold blockCheck. rewrite nextNonEmpty_app_blanks, !IH.
    reflexivity.
Qed.

Lemma getIndentLevel_trimStart (l : str) :
  getIndentLevel l + List.length (trimStart l) = List.length l.
Proof.
  induction l as [|c l IH]; simpl; [reflexivity|].
  destruct (is_space c); simpl; lia.
Qed.

Lemma trimStart_nil_iff (l : str) :
  trimStart l = [] <-> forallb is_space l = true.
Proof.
  induction l as [|c l IH]; simpl; [tauto|].
  destruct (is_space c); simpl; [exact IH|].
  split; discriminate.
Qed.

Lemma trimStart_head (l : str) : headIs is_space (trimStart l) = false.
Proof.
  induction l as [|c l IH]; simpl; [reflexivity|].
  destruct (is_space c) eqn:E; [exact IH | simpl; exact E].
Qed.

Lemma trim_nil_iff (l : str) : trim l = [] <-> trimStart l = [].
Proof.
  unfold trim, trimEnd. split.
  - intros H.
    assert (H' : trimStart (rev (trimStart l)) = []).
    { rewrite <- (rev_involutive (trimStart (rev (trimStart l)))), H.
      reflexivity. }
    pose proof (trimStart_head l) as Hhead.
    destruct (trimStart l) as [|c t] eqn:Et; [reflexivity|].
    exfalso. simpl in Hhead.
    apply trimStart_nil_iff in H'.
    rewrite forallb_forall in H'.
    assert (Hin : In c (rev (c :: t))) by (apply in_rev; rewrite rev_involutive; left; reflexivity).
    rewrite (H' c Hin) in Hhead. discriminate.
  - intros ->. reflexivity.
Qed.

End MoreValidateFacts.

(** X6.  [validatePythonSyntax] answers [Valid] exactly when no line lacks
    its indented block and each of the three counters is zero after the
    last line. *)
Theorem valid_iff_blocks_and_balance (code : str) :
  validatePythonSyntax code = Valid <->
  (forall i line, ~ lacksBlock (split nl code) i line) /\
  parenCount (tally (split nl code) noCounts) = 0%Z /\
  bracketCount (tally (split nl code) noCounts) = 0%Z /\
  braceCount (tally (split nl code) noCounts) = 0%Z.
Proof.
  destruct (validatePythonSyntax_cases code)
    as [[Hv Hnone] | (n & first & Hn & _ & Hv)].
  - rewrite Hv, balanceVerdict_Valid. tauto.
  - rewrite Hv. split; [discriminate|].
    intros [Hnone _]. exfalso. exact (Hnone n first Hn).
Qed.

(** X7.  Trailing empty lines do not change the verdict of
    [validatePythonSyntax]. *)
Theorem validate_ignores_trailing_empty_lines (code : str) (k : nat) :
  validatePythonSyntax (code ++ repeat nl k) = validatePythonSyntax code.
Proof.
  unfold validatePythonSyntax.
  rewrite split_app_seps, validateFrom_app_blanks. reflexivity.
Qed.

(** X8.  A quoted segment that closes on the same line contributes nothing
    to the counters, whatever it contains (brackets, the other quote, the
    comment marker): the character loop continues after the closing quote
    with the counters it had before the opening one. *)
Theorem quoted_segment_not_counted
  (q : ascii) (body rest : str) (k : Counts) :
  isQuote q = true ->
  ~ In q body ->
  scanChars (q :: body ++ q :: rest) None k = scanChars rest None k.
Proof.
  intros Hq Hbody.
  assert (Hhash : Ascii.eqb q "#" = false).
  { destruct (Ascii.eqb q "#") eqn:E; [|reflexivity].
    apply Ascii.eqb_eq in E. subst q. discriminate. }
  assert (Hbump : bump q k = k).
  { unfold isQuote in Hq. apply orb_true_iff in Hq.
    destruct Hq as [E|E]; apply Ascii.eqb_eq in E; subst q; reflexivity. }
  simpl scanChars. rewrite Hhash. unfold quoteStep at 1. rewrite Hq.
  induction body as [|c body IH].
  - simpl. unfold quoteStep. rewrite Hq, Ascii.eqb_refl.
    rewrite Hbump. destruct (Ascii.eqb q "#"); reflexivity.
  - assert (Hc : Ascii.eqb c q = false).
    { apply Ascii.eqb_neq. intros ->. apply Hbody. left. reflexivity. }
    assert (Hstep : quoteStep c (Some q) = Some q).
    { unfold quoteStep. rewrite Hc. destruct (isQuote c); reflexivity. }
    simpl. rewrite Hstep.
    destruct (Ascii.eqb c "#"); apply IH;
      intros Hin; apply Hbody; right; exact Hin.
Qed.

Lemma quoted_segment_not_counted_witness :
  isQuote "'" = true /\ ~ In "'" (lit "#([{") /\
  scanChars (lit "'#([{') # (") None noCounts = scanChars (lit ") # (") None noCounts /\
  tally [Examples.quotedBrackets] noCounts = mkCounts 0 0 0.
Proof.
  assert (Hq : isQuote "'" = true) by reflexivity.
  assert (Hb : ~ In "'" (lit "#([{")).
  { simpl. intuition discriminate. }
  split; [exact Hq | split; [exact Hb | split; [|reflexivity]]].
  exact (quoted_segment_not_counted "'" (lit "#([{") (lit ") # (") noCounts Hq Hb).
Defined.

(** X9.  Outside a string a comment marker ends the counting for the
    line: when the text before the marker holds no quote, whatever follows
    the marker has no effect on the counters. *)
Theorem comment_tail_not_counted (s t : str) (k : Counts) :
  forallb (fun c => negb (isQuote c)) s = true ->
  scanChars (s ++ "#" :: t) None k = scanChars s None k.
Proof.
  revert k. induction s as [|c s IH]; intros k H; simpl in *.
  - reflexivity.
  - apply andb_true_iff in H. destruct H as [Hc Hs].
    apply negb_true_iff in Hc.
    destruct (Ascii.eqb c "#"); [reflexivity|].
    unfold quoteStep. rewrite Hc. apply IH. exact Hs.
Qed.

Lemma comment_tail_not_counted_witness :
  forallb (fun c => negb (isQuote c)) (lit "x = (1 ") = true /\
  scanChars (lit "x = (1 " ++ "#" :: lit " )]}") None noCounts
  = scanChars (lit "x = (1 ") None noCounts /\
  scanChars (lit "x = (1 ") None noCounts = mkCounts 1 0 0.
Proof.
  assert (H : forallb (fun c => negb (isQuote c)) (lit "x = (1 ") = true)
    by reflexivity.
  split; [exact H | split; [|reflexivity]].
  exact (comment_tail_not_counted (lit "x = (1 ") (lit " )]}") noCounts H).
Defined.

(** X11.  The indentation level of a line is the number of characters that
    trimming removes from its front; it equals the length of the line
    exactly when the line is blank, and trimmed text has level 0. *)
Theorem indent_level_and_trimming (line : str) :
  getIndentLevel line + List.length (trimStart line) = List.length line /\
  (getIndentLevel line = List.length line <-> blank line) /\
  getIndentLevel (trim line) = 0.
Proof.
  split; [apply getIndentLevel_trimStart | split].
  - unfold blank. rewrite trim_nil_iff.
    pose proof (getIndentLevel_trimStart line) as H.
    split.
    + intros E. destruct (trimStart line); [reflexivity | simpl in H; lia].
    + intros E. rewrite E in H. simpl in H. lia.
  - pose proof (trimStart_head line) as Hhead.
    destruct (trimEnd_prefix (trimStart line)) as [q Hq].
    unfold trim. destruct (trimEnd (trimStart line)) as [|c t] eqn:E;
      [reflexivity|].
    rewrite Hq in Hhead. simpl in Hhead. simpl. rewrite Hhead. reflexivity.
Qed.

(** ** Further properties of [extractCodeWithoutDocstrings] *)

Section MoreExtractFacts.

Lemma existsb_false_Forall (A : Type) (p : A -> bool) (l : list A) :
  existsb p l = false -> Forall (fun x => p x = false) l.
Proof.
  induction l as [|x l IH]; simpl; intros H; [constructor|].
  apply orb_false_iff in H. destruct H as [Hx Hl].
  constructor; [exact Hx | apply IH; exact Hl].
Qed.

Lemma extractFrom_subseq (rest : list str) :
  forall inDocstring docstringQuote,
    Subseq (extractFrom rest inDocstring docstringQuote) rest.
Proof.
  induction rest as [|line rest IH]; intros b q; simpl; [constructor|].
  destruct b; simpl.
  - destruct (endsWith (trim line) q); apply Subseq_skip, IH.
  - destruct (startsTriple (trim line)).
    + destruct ((3 <? List.length (trim line))
                && endsWith (trim line)
                     (if startsWith (trim line) tripleDouble
                      then tripleDouble else tripleSingle));
        apply Subseq_skip, IH.
    + apply Subseq_keep, IH.
Qed.

(** Inside a docstring, lines are dropped up to and including the first one
    that ends with the delimiter. *)
Lemma extractFrom_inside (body : list str) (q : str) :
  Forall (fun b => endsWith (trim b) q = false) body ->
  forall rest,
    extractFrom (body ++ rest) true q =
    match rest with
    | [] => []
    | closer :: post =>
        if endsWith (trim closer) q then extractFrom post false q
        else extractFrom rest true q
    end.
Proof.
  intros Hbody rest. induction Hbody as [|b body Hb _ IH]; simpl.
  - destruct rest as [|closer post]; [reflexivity|].
    simpl. destruct (endsWith (trim closer) q); reflexivity.
  - rewrite Hb. exact IH.
Qed.

(** Outside a docstring, lines that open none are copied. *)
Lemma extractFrom_outside (pre : list str) (q : str) :
  Forall (fun l => startsTriple (trim l) = false) pre ->
  forall rest,
    extractFrom (pre ++ rest) false q = pre ++ extractFrom rest false q.
Proof.
  intros Hpre rest. induction Hpre as [|l pre Hl _ IH]; simpl; [reflexivity|].
  rewrite Hl. simpl. f_equal. exact IH.
Qed.

(** A line that opens a docstring is dropped, and so is the docstring. *)
Lemma extractFrom_opener (opener : str) (rest : list str) (q : str) :
  startsTriple (trim opener) = true ->
  extractFrom (opener :: rest) false q =
  extractFrom rest (negb (closesOnSameLine opener)) (delimiterOf opener).
Proof.
  intros Hopen. simpl. rewrite Hopen. simpl.
  unfold closesOnSameLine, delimiterOf.
  destruct ((3 <? List.length (trim opener))
            && endsWith (trim opener)
                 (if startsWith (trim opener) tripleDouble
                  then tripleDouble else tripleSingle)); reflexivity.
Qed.

End MoreExtractFacts.

(** X5.  On an input whose lines are all blank, the empty input included,
    [parseFunctions] finds no function, [validatePythonSyntax] answers
    [Valid] and [extractCodeWithoutDocstrings] returns the input
    unchanged. *)
Theorem blank_input (code : str) :
  (forall l, In l (split nl code) -> blank l) ->
  parseFunctions code = [] /\
  validatePythonSyntax code = Valid /\
  extractCodeWithoutDocstrings code = code.
Proof.
  intros Hblank. split; [|split].
  - apply parseFrom_nil_iff. intros raw Hin.
    unfold isDefLine. rewrite (Hblank raw Hin). reflexivity.
  - destruct (validatePythonSyntax_cases code)
      as [[Hv _] | (n & first & (Hn & Hcolon & _) & _)].
    + rewrite Hv, tally_blank by exact Hblank. reflexivity.
    + apply nth_error_In in Hn. rewrite (Hblank first Hn) in Hcolon.
      discriminate.
  - unfold extractCodeWithoutDocstrings.
    rewrite extractFrom_copies; [apply join_split|].
    apply Forall_forall. intros l Hin. rewrite (Hblank l Hin). reflexivity.
Qed.

Lemma blank_input_witness :
  (forall l, In l (split nl Examples.blankOnly) -> blank l) /\
  parseFunctions Examples.blankOnly = [] /\
  validatePythonSyntax Examples.blankOnly = Valid /\
  extractCodeWithoutDocstrings Examples.blankOnly = Examples.blankOnly.
Proof.
  assert (H : forall l, In l (split nl Examples.blankOnly) -> blank l).
  { intros l Hin. vm_compute in Hin.
    repeat (destruct Hin as [<-|Hin]; [reflexivity|]). contradiction. }
  split; [exact H|].
  exact (blank_input Examples.blankOnly H).
Defined.

(** X12.  [extractCodeWithoutDocstrings] only leaves lines out: its result
    is the join of lines of the input, in their original order and with
    their original content. *)
Theorem extract_keeps_a_subsequence (code : str) :
  exists out,
    extractCodeWithoutDocstrings code = join nl out /\
    Subseq out (split nl code).
Proof.
  exists (extractFrom (split nl code) false []).
  split; [reflexivity | apply extractFrom_subseq].
Qed.

(** X13.  For every input, no line of the result of
    [extractCodeWithoutDocstrings] starts, after trimming, with a
    triple-quote delimiter. *)
Theorem extract_leaves_no_opener (code : str) :
  Forall (fun l => startsWith (trim l) tripleDouble = false /\
                   startsWith (trim l) tripleSingle = false)
         (split nl (extractCodeWithoutDocstrings code)).
Proof.
  pose proof (extract_output_has_no_block code) as H.
  unfold hasTripleQuotedBlock in H.
  apply existsb_false_Forall in H.
  eapply Forall_impl; [|exact H].
  intros l Hl. unfold startsTriple in Hl.
  apply orb_false_iff in Hl. exact Hl.
Qed.

(** X14.  An input without a line that starts, after trimming, with a
    triple-quote delimiter is returned unchanged. *)
Theorem extract_identity_without_docstrings (code : str) :
  hasTripleQuotedBlock code = false ->
  extractCodeWithoutDocstrings code = code.
Proof.
  intros H. unfold hasTripleQuotedBlock in H.
  apply existsb_false_Forall in H.
  unfold extractCodeWithoutDocstrings.
  rewrite extractFrom_copies by exact H. apply join_split.
Qed.

Lemma extract_identity_without_docstrings_witness :
  hasTripleQuotedBlock Examples.twoFunctions = false /\
  extractCodeWithoutDocstrings Examples.twoFunctions = Examples.twoFunctions.
Proof.
  assert (H : hasTripleQuotedBlock Examples.twoFunctions = false)
    by reflexivity.
  split; [exact H|].
  exact (extract_identity_without_docstrings Examples.twoFunctions H).
Defined.

(** X15.  A docstring over several lines is removed as a block: the line
    that opens it, every line up to the first one that ends with the same
    delimiter, and that line.  When no other line of the input opens a
    docstring, the result is the join of the remaining lines. *)
Theorem docstring_block_removed
  (code : str) (pre body post : list str) (opener closer : str) :
  split nl code = pre ++ opener :: body ++ closer :: post ->
  Forall (fun l => startsTriple (trim l) = false) pre ->
  Forall (fun l => startsTriple (trim l) = false) post ->
  startsTriple (trim opener) = true ->
  closesOnSameLine opener = false ->
  Forall (fun b => endsWith (trim b) (delimiterOf opener) = false) body ->
  endsWith (trim closer) (delimiterOf opener) = true ->
  extractCodeWithoutDocstrings code = join nl (pre ++ post).
Proof.
  intros Hlines Hpre Hpost Hopen Hsame Hbody Hclose.
  unfold extractCodeWithoutDocstrings. rewrite Hlines.
  rewrite extractFrom_outside by exact Hpre.
  rewrite extractFrom_opener by exact Hopen.
  rewrite Hsame. cbn [negb].
  rewrite extractFrom_inside by exact Hbody.
  rewrite Hclose, extractFrom_copies by exact Hpost.
  reflexivity.
Qed.

Lemma docstring_block_removed_witness :
  split nl Examples.blockDocstring =
    [lit "def f():"] ++ lit "    '''" :: [lit "    doc (x"]
      ++ lit "    '''" :: [lit "    pass"; lit ""] /\
  extractCodeWithoutDocstrings Examples.blockDocstring =
    join nl ([lit "def f():"] ++ [lit "    pass"; lit ""]).
Proof.
  assert (H : split nl Examples.blockDocstring =
              [lit "def f():"] ++ lit "    '''" :: [lit "    doc (x"]
                ++ lit "    '''" :: [lit "    pass"; lit ""])
    by reflexivity.
  split; [exact H|].
  apply (docstring_block_removed _ _ _ _ _ _ H).
  - repeat constructor.
  - repeat constructor.
  - reflexivity.
  - reflexivity.
  - repeat constructor.
  - reflexivity.
Defined.

(** X16.  A docstring that opens and closes on one line (more than three
    characters after trimming, ending with the delimiter it starts with) is
    removed alone: the lines after it are kept. *)
Theorem one_line_docstring_removed
  (code : str) (pre post : list str) (doc : str) :
  split nl code = pre ++ doc :: post ->
  Forall (fun l => startsTriple (trim l) = false) pre ->
  Forall (fun l => startsTriple (trim l) = false) post ->
  startsTriple (trim doc) = true ->
  closesOnSameLine doc = true ->
  extractCodeWithoutDocstrings code = join nl (pre ++ post).
Proof.
  intros Hlines Hpre Hpost Hopen Hsame.
  unfold extractCodeWithoutDocstrings. rewrite Hlines.
  rewrite extractFrom_outside by exact Hpre.
  rewrite extractFrom_opener by exact Hopen.
  rewrite Hsame. cbn [negb].
  rewrite extractFrom_copies by exact Hpost.
  reflexivity.
Qed.

Lemma one_line_docstring_removed_witness :
  split nl Examples.withDocstring =
    [lit "def f():"]
      ++ (lit "    " ++ tripleDouble ++ lit "doc" ++ tripleDouble)
      :: [lit "    pass"; lit ""] /\
  extractCodeWithoutDocstrings Examples.withDocstring =
    join nl ([lit "def f():"] ++ [lit "    pass"; lit ""]).
Proof.
  assert (H : split nl Examples.withDocstring =
              [lit "def f():"]
                ++ (lit "    " ++ tripleDouble ++ lit "doc" ++ tripleDouble)
                :: [lit "    pass"; lit ""])
    by reflexivity.
  split; [exact H|].
  apply (one_line_docstring_removed _ _ _ _ H).
  - repeat constructor.
  - repeat constructor.
  - reflexivity.
  - reflexivity.
Defined.

(** X17.  A docstring that is never closed swallows the rest of the input:
    when no line after the opening one ends with its delimiter, every line
    from the opening one on is dropped. *)
Theorem unclosed_docstring_drops_the_rest
  (code : str) (pre body : list str) (opener : str) :
  split nl code = pre ++ opener :: body ->
  Forall (fun l => startsTriple (trim l) = false) pre ->
  startsTriple (trim opener) = true ->
  closesOnSameLine opener = false ->
  Forall (fun b => endsWith (trim b) (delimiterOf opener) = false) body ->
  extractCodeWithoutDocstrings code = join nl pre.
Proof.
  intros Hlines Hpre Hopen Hsame Hbody.
  unfold extractCodeWithoutDocstrings. rewrite Hlines.
  rewrite extractFrom_outside by exact Hpre.
  rewrite extractFrom_opener by exact Hopen.
  rewrite Hsame. cbn [negb].
  rewrite <- (app_nil_r body).
  rewrite extractFrom_inside by exact Hbody.
  rewrite app_nil_r. reflexivity.
Qed.

Lemma unclosed_docstring_drops_the_rest_witness :
  split nl Examples.openDocstring =
    [lit "def f():"] ++ lit "    '''doc" :: [lit "    pass"; lit ""] /\
  extractCodeWithoutDocstrings Examples.openDocstring = lit "def f():".
Proof.
  assert (H : split nl Examples.openDocstring =
              [lit "def f():"] ++ lit "    '''doc" :: [lit "    pass"; lit ""])
    by reflexivity.
  split; [exact H|].
  apply (unclosed_docstring_drops_the_rest _ _ _ _ H).
  - repeat constructor.
  - reflexivity.
  - reflexivity.
  - repeat constructor.
Defined.

(** *** The counters on text without quotes and comments *)

Section PlainTally.

Lemma countChar_cons (x c : ascii) (s : str) :
  countChar x (c :: s) =
  ((if Ascii.eqb c x then 1 else 0) + countChar x s)%Z.
Proof.
  unfold countChar. simpl.
  destruct (ascii_dec c x) as [->|Hne].
  - rewrite Ascii.eqb_refl. lia.
  - apply Ascii.eqb_neq in Hne. rewrite Hne. lia.
Qed.

Lemma countChar_app (x : ascii) (s t : str) :
  countChar x (s ++ t) = (countChar x s + countChar x t)%Z.
Proof. unfold countChar. rewrite count_occ_app. lia. Qed.

Lemma countChar_trimStart (x : ascii) (s : str) :
  is_space x = false -> countChar x (trimStart s) = countChar x s.
Proof.
  intros Hx. induction s as [|c s IH]; simpl; [reflexivity|].
  destruct (is_space c) eqn:Ec; [|reflexivity].
  rewrite countChar_cons, IH.
  destruct (Ascii.eqb c x) eqn:E; [|lia].
  apply Ascii.eqb_eq in E. subst c. congruence.
Qed.

Lemma countChar_rev (x : ascii) (s : str) :
  countChar x (rev s) = countChar x s.
Proof. unfold countChar. rewrite count_occ_rev. reflexivity. Qed.

Lemma countChar_trim (x : ascii) (s : str) :
  is_space x = false -> countChar x (trim s) = countChar x s.
Proof.
  intros Hx. unfold trim, trimEnd.
  rewrite countChar_rev, countChar_trimStart, countChar_rev,
    countChar_trimStart by exact Hx.
  reflexivity.
Qed.

(** The sum of the counts of [x] over the lines. *)
Let sumCount (x : ascii) (lines : list str) : Z :=
  fold_right (fun l acc => (countChar x l + acc)%Z) 0%Z lines.

Lemma countChar_split (x : ascii) (s : str) :
  x <> nl -> countChar x s = sumCount x (split nl s).
Proof.
  intros Hx. induction s as [|c s IH]; [reflexivity|].
  simpl split. pose proof (split_not_nil nl s) as Hne.
  rewrite countChar_cons.
  destruct (Ascii.eqb c nl) eqn:E.
  - apply Ascii.eqb_eq in E. subst c.
    assert (Hnx : Ascii.eqb nl x = false)
      by (apply Ascii.eqb_neq; congruence).
    rewrite Hnx, IH. reflexivity.
  - destruct (split nl s) as [|l ls]; [congruence|].
    cbn [sumCount fold_right] in *. rewrite countChar_cons, IH. lia.
Qed.

Lemma plainText_In (s : str) :
  plainText s = true <->
  forall c, In c s -> isQuote c = false /\ Ascii.eqb c "#" = false.
Proof.
  unfold plainText. rewrite forallb_forall. split.
  - intros H c Hin. specialize (H c Hin).
    apply andb_true_iff in H. destruct H as [H1 H2].
    split; apply negb_true_iff; assumption.
  - intros H c Hin. destruct (H c Hin) as [H1 H2].
    rewrite H1, H2. reflexivity.
Qed.

Lemma split_In (sep : ascii) (s : str) :
  forall l c, In l (split sep s) -> In c l -> In c s.
Proof.
  induction s as [|c0 s IH]; intros l c Hl Hc; simpl in Hl.
  - destruct Hl as [<-|[]]. exact Hc.
  - destruct (Ascii.eqb c0 sep).
    + destruct Hl as [<-|Hl]; [destruct Hc|].
      right. exact (IH l c Hl Hc).
    + destruct (split sep s) as [|l0 ls] eqn:Es.
      * destruct Hl as [<-|[]]. destruct Hc as [<-|[]]. left. reflexivity.
      * destruct Hl as [<-|Hl].
        -- destruct Hc as [<-|Hc]; [left; reflexivity|].
           right. apply (IH l0 c); [left; reflexivity | exact Hc].
        -- right. apply (IH l c); [right; exact Hl | exact Hc].
Qed.

Lemma plainText_trim (s : str) : plainText s = true -> plainText (trim s) = true.
Proof.
  rewrite !plainText_In. intros H c Hin. apply H.
  destruct (trim_substring s) as (p & q & Hs).
  rewrite Hs. apply in_or_app. right. apply in_or_app. left. exact Hin.
Qed.

(** On plain text the character loop adds, for each kind of bracket, the
    number of opening ones and subtracts the number of closing ones. *)
Lemma scanChars_plain (s : str) :
  forall k,
    plainText s = true ->
    scanChars s None k =
    mkCounts (parenCount k + (countChar "(" s - countChar ")" s))
             (bracketCount k + (countChar "[" s - countChar "]" s))
             (braceCount k + (countChar "{" s - countChar "}" s)).
Proof.
  induction s as [|c s IH]; intros k H.
  - destruct k. simpl. unfold countChar. simpl. f_equal; lia.
  - unfold plainText in H. simpl in H.
    apply andb_true_iff in H. destruct H as [Hc Hs].
    apply andb_true_iff in Hc. destruct Hc as [Hq Hh].
    apply negb_true_iff in Hq. apply negb_true_iff in Hh.
    simpl scanChars. rewrite Hh. unfold quoteStep. rewrite Hq.
    rewrite (IH _ Hs). rewrite !countChar_cons. unfold bump.
    destruct (Ascii.eqb c "(") eqn:E1.
    { apply Ascii.eqb_eq in E1. subst c. cbn -[Z.add Z.sub countChar].
      f_equal; lia. }
    destruct (Ascii.eqb c ")") eqn:E2.
    { apply Ascii.eqb_eq in E2. subst c. cbn -[Z.add Z.sub countChar].
      f_equal; lia. }
    destruct (Ascii.eqb c "[") eqn:E3.
    { apply Ascii.eqb_eq in E3. subst c. cbn -[Z.add Z.sub countChar].
      f_equal; lia. }
    destruct (Ascii.eqb c "]") eqn:E4.
    { apply Ascii.eqb_eq in E4. subst c. cbn -[Z.add Z.sub countChar].
      f_equal; lia. }
    destruct (Ascii.eqb c "{") eqn:E5.
    { apply Ascii.eqb_eq in E5. subst c. cbn -[Z.add Z.sub countChar].
      f_equal; lia. }
    destruct (Ascii.eqb c "}") eqn:E6.
    { apply Ascii.eqb_eq in E6. subst c. cbn -[Z.add Z.sub countChar].
      f_equal; lia. }
    f_equal; lia.
Qed.

Lemma tally_plain (lines : list str) :
  forall k,
    Forall (fun l => plainText l = true) lines ->
    tally lines k =
    mkCounts (parenCount k + (sumCount "(" lines - sumCount ")" lines))
             (bracketCount k + (sumCount "[" lines - sumCount "]" lines))
             (braceCount k + (sumCount "{" lines - sumCount "}" lines)).
Proof.
  induction lines as [|l lines IH]; intros k H.
  - destruct k. simpl. f_equal; lia.
  - inversion H as [|? ? Hl Hrest]; subst.
    change (tally (l :: lines) k)
      with (tally lines (if isEmpty (trim l) then k
                         else scanChars (trim l) None k)).
    rewrite (IH _ Hrest). cbn [sumCount fold_right].
    fold (sumCount "(" lines) (sumCount ")" lines) (sumCount "[" lines)
         (sumCount "]" lines) (sumCount "{" lines) (sumCount "}" lines).
    rewrite <- (countChar_trim "(" l), <- (countChar_trim ")" l),
      <- (countChar_trim "[" l), <- (countChar_trim "]" l),
      <- (countChar_trim "{" l), <- (countChar_trim "}" l) by reflexivity.
    destruct (trim l) as [|c t] eqn:Et.
    + simpl isEmpty. cbv iota. unfold countChar. simpl. f_equal; lia.
    + simpl isEmpty. cbv iota.
      rewrite scanChars_plain by (rewrite <- Et; apply plainText_trim; exact Hl).
      cbn [parenCount bracketCount braceCount]. f_equal; lia.
Qed.

Lemma tally_plain_text (code : str) :
  plainText code = true ->
  tally (split nl code) noCounts =
  mkCounts (countChar "(" code - countChar ")" code)
           (countChar "[" code - countChar "]" code)
           (countChar "{" code - countChar "}" code).
Proof.
  intros H. rewrite tally_plain.
  - rewrite <- !countChar_split by discriminate. reflexivity.
  - apply Forall_forall. intros l Hl. apply plainText_In.
    intros c Hc. apply (proj1 (plainText_In code) H).
    exact (split_In nl code l c Hl Hc).
Qed.

End PlainTally.

(** X10.  On text without quotes and comment markers the three counters
    are plain differences over the whole text: the number of opening minus
    the number of closing parentheses, square brackets and curly braces.
    Such text with no line lacking its block is [Valid] exactly when the
    three differences are zero. *)
Theorem plain_text_counters (code : str) :
  plainText code = true ->
  tally (split nl code) noCounts =
    mkCounts (countChar "(" code - countChar ")" code)
             (countChar "[" code - countChar "]" code)
             (countChar "{" code - countChar "}" code) /\
  ((forall i line, ~ lacksBlock (split nl code) i line) ->
   (validatePythonSyntax code = Valid <->
    countChar "(" code = countChar ")" code /\
    countChar "[" code = countChar "]" code /\
    countChar "{" code = countChar "}" code)).
Proof.
  intros H. pose proof (tally_plain_text code H) as Ht.
  split; [exact Ht|].
  intros Hnone.
  destruct (validatePythonSyntax_cases code)
    as [[Hv _] | (n & first & Hn & _)].
  2:{ exfalso. exact (Hnone n first Hn). }
  rewrite Hv, balanceVerdict_Valid, Ht.
  cbn [parenCount bracketCount braceCount]. lia.
Qed.

Lemma plain_text_counters_witness :
  plainText Examples.nestedBrackets = true /\
  tally (split nl Examples.nestedBrackets) noCounts = mkCounts 1 0 0.
Proof.
  assert (H : plainText Examples.nestedBrackets = true) by reflexivity.
  split; [exact H|].
  exact (proj1 (plain_text_counters Examples.nestedBrackets H)).
Defined.

(** ** Properties of the in-memory storage *)

Section StorageFacts.

Context {Insert : Type}.

Lemma strEq_eq (a b : str) : JSMap.strEq a b = true <-> a = b.
Proof.
  revert b. induction a as [|x a IH]; intros [|y b]; simpl;
    try (split; [discriminate | congruence]); [tauto|].
  rewrite andb_true_iff, Ascii.eqb_eq, IH.
  split; [intros [-> ->]; reflexivity | intros H; injection H; tauto].
Qed.

Lemma strEq_refl (a : str) : JSMap.strEq a a = true.
Proof. apply strEq_eq. reflexivity. Qed.

Lemma strEq_neq (a b : str) : JSMap.strEq a b = false <-> a <> b.
Proof.
  destruct (JSMap.strEq a b) eqn:E.
  - apply strEq_eq in E. split; [discriminate | congruence].
  - split; [|reflexivity]. intros _ H. apply strEq_eq in H. congruence.
Qed.

Lemma get_set_same (V : Type) (key : str) (value : V) (m : JSMap.t V) :
  JSMap.get key (JSMap.set key value m) = Some value.
Proof.
  induction m as [|[k v] m IH]; simpl.
  - rewrite strEq_refl. reflexivity.
  - destruct (JSMap.strEq k key) eqn:E; simpl; rewrite E;
      [reflexivity | exact IH].
Qed.

Lemma get_set_other (V : Type) (key key' : str) (value : V) (m : JSMap.t V) :
  key' <> key ->
  JSMap.get key' (JSMap.set key value m) = JSMap.get key' m.
Proof.
  intros Hne. induction m as [|[k v] m IH]; simpl.
  - assert (E : JSMap.strEq key key' = false)
      by (apply strEq_neq; congruence).
    rewrite E. reflexivity.
  - destruct (JSMap.strEq k key) eqn:E; simpl.
    + apply strEq_eq in E. subst k.
      assert (E' : JSMap.strEq key key' = false)
        by (apply strEq_neq; congruence).
      rewrite E'. reflexivity.
    + destruct (JSMap.strEq k key'); [reflexivity | exact IH].
Qed.

(** A new key goes to the end of the map. *)
Lemma set_fresh (V : Type) (key : str) (value : V) (m : JSMap.t V) :
  JSMap.get key m = None -> JSMap.set key value m = m ++ [(key, value)].
Proof.
  induction m as [|[k v] m IH]; simpl; [reflexivity|].
  destruct (JSMap.strEq k key); [discriminate|].
  intros H. rewrite (IH H). reflexivity.
Qed.

Lemma insertBy_Permutation (A : Type) (cmp : A -> A -> Z) (x : A)
  (a : list A) : Permutation (JSArray.insertBy cmp x a) (x :: a).
Proof.
  induction a as [|y a IH]; simpl; [reflexivity|].
  destruct (cmp x y <=? 0)%Z; [reflexivity|].
  rewrite IH. apply perm_swap.
Qed.

Lemma sort_Permutation (A : Type) (cmp : A -> A -> Z) (a : list A) :
  Permutation (JSArray.sort cmp a) a.
Proof.
  induction a as [|x a IH]; simpl; [reflexivity|].
  rewrite insertBy_Permutation, IH. reflexivity.
Qed.

Lemma insertBy_newerFirst_sorted (x : DocstringGeneration.t Insert)
  (a : list (DocstringGeneration.t Insert)) :
  StronglySorted MemStorage.notOlder a ->
  StronglySorted MemStorage.notOlder (JSArray.insertBy MemStorage.newerFirst x a).
Proof.
  intros Hs. induction Hs as [|y a Hs IH Hy]; simpl.
  - repeat constructor.
  - unfold MemStorage.newerFirst at 1.
    destruct (MemStorage.timeOf y - MemStorage.timeOf x <=? 0)%Z eqn:E.
    + apply Z.leb_le in E.
      constructor; [constructor; assumption|].
      constructor; [unfold MemStorage.notOlder; lia|].
      rewrite Forall_forall in *. intros z Hz. specialize (Hy z Hz).
      unfold MemStorage.notOlder in *. lia.
    + apply Z.leb_gt in E.
      constructor; [exact IH|].
      rewrite (insertBy_Permutation _ MemStorage.newerFirst x a).
      constructor; [unfold MemStorage.notOlder; lia | exact Hy].
Qed.

Lemma sort_newerFirst_sorted (a : list (DocstringGeneration.t Insert)) :
  StronglySorted MemStorage.notOlder (JSArray.sort MemStorage.newerFirst a).
Proof.
  induction a as [|x a IH]; simpl; [constructor|].
  apply insertBy_newerFirst_sorted. exact IH.
Qed.

End StorageFacts.

(** X18.  [getUser] with the id that [createUser] used returns the user
    just created, built from that id and the given name and password;
    every other id answers as before, and the stored generations are not
    touched.  A new storage has no user. *)
Theorem createUser_getUser (Insert : Type) (insertUser : InsertUser.t)
  (id : str) (st : MemStorage.t Insert) :
  let user := fst (MemStorage.createUser insertUser id st) in
  let st' := snd (MemStorage.createUser insertUser id st) in
  user = User.mk id (InsertUser.username insertUser)
                    (InsertUser.password insertUser) /\
  MemStorage.getUser id st' = Some user /\
  (forall id', id' <> id ->
               MemStorage.getUser id' st' = MemStorage.getUser id' st) /\
  MemStorage.docstringGenerations st' = MemStorage.docstringGenerations st /\
  MemStorage.getUser id (@MemStorage.new Insert) = None.
Proof.
  cbn. repeat split.
  - apply get_set_same.
  - intros id' Hne. apply get_set_other. exact Hne.
Qed.

(** X19.  [getUserByUsername] returns a stored user with the given name
    when there is one, and nothing exactly when no stored user has that
    name. *)
Theorem getUserByUsername_finds (Insert : Type) (username : str)
  (st : MemStorage.t Insert) :
  (forall user,
      MemStorage.getUserByUsername username st = Some user ->
      User.username user = username /\
      In user (JSMap.values (MemStorage.users st))) /\
  (MemStorage.getUserByUsername username st = None <->
   forall user, In user (JSMap.values (MemStorage.users st)) ->
                User.username user <> username).
Proof.
  unfold MemStorage.getUserByUsername, JSArray.find. split.
  - intros user H. apply find_some in H. destruct H as [Hin Heq].
    apply strEq_eq in Heq. split; assumption.
  - split.
    + intros H user Hin. apply strEq_neq.
      exact (find_none _ _ H user Hin).
    + intros H.
      destruct (List.find _ _) as [user|] eqn:E; [|reflexivity].
      apply find_some in E. destruct E as [Hin Heq].
      apply strEq_eq in Heq. exfalso. exact (H user Hin Heq).
Qed.

Lemma find_app (A : Type) (p : A -> bool) (l l' : list A) :
  List.find p (l ++ l') =
  match List.find p l with
  | Some x => Some x
  | None => List.find p l'
  end.
Proof.
  induction l as [|x l IH]; simpl; [reflexivity|].
  destruct (p x); [reflexivity | exact IH].
Qed.

(** X20.  The storage does not keep user names unique.  After
    [createUser] with an unused id, a lookup by name still returns the
    user that had the name before, if there was one; the new user is
    returned only when nobody had the name. *)
Theorem createUser_keeps_earlier_name_holder (Insert : Type)
  (insertUser : InsertUser.t) (id username : str) (st : MemStorage.t Insert) :
  MemStorage.getUser id st = None ->
  let user := fst (MemStorage.createUser insertUser id st) in
  let st' := snd (MemStorage.createUser insertUser id st) in
  MemStorage.getUserByUsername username st' =
    match MemStorage.getUserByUsername username st with
    | Some earlier => Some earlier
    | None =>
        if JSMap.strEq (InsertUser.username insertUser) username
        then Some user else None
    end.
Proof.
  intros Hfresh. cbn.
  unfold MemStorage.getUserByUsername, MemStorage.getUser, JSArray.find,
    JSMap.values in *.
  cbn [MemStorage.users].
  rewrite (set_fresh _ _ _ _ Hfresh), map_app, find_app.
  destruct (List.find _ (map snd (MemStorage.users st))); reflexivity.
Qed.

Lemma createUser_keeps_earlier_name_holder_witness :
  let st0 : MemStorage.t unit := MemStorage.new in
  let ann := InsertUser.mk (lit "ann") (lit "pw1") in
  let ann2 := InsertUser.mk (lit "ann") (lit "pw2") in
  let st1 := snd (MemStorage.createUser ann (lit "id-1") st0) in
  let st2 := snd (MemStorage.createUser ann2 (lit "id-2") st1) in
  MemStorage.getUser (lit "id-2") st1 = None /\
  MemStorage.getUserByUsername (lit "ann") st2 =
    Some (User.mk (lit "id-1") (lit "ann") (lit "pw1")) /\
  MemStorage.getUser (lit "id-2") st2 =
    Some (User.mk (lit "id-2") (lit "ann") (lit "pw2")).
Proof.
  intros st0 ann ann2 st1 st2.
  assert (H : MemStorage.getUser (lit "id-2") st1 = None) by reflexivity.
  split; [exact H | split; [|reflexivity]].
  unfold st2.
  rewrite (createUser_keeps_earlier_name_holder unit ann2 (lit "id-2")
             (lit "ann") st1 H).
  reflexivity.
Defined.

(** X21.  [getDocstringGeneration] with the id that
    [createDocstringGeneration] used returns the generation just created,
    which carries the given fields, that id and the creation time; every
    other id answers as before, and the users are not touched.  An id that
    was never stored answers nothing in a new storage. *)
Theorem createDocstringGeneration_get (Insert : Type) (generation : Insert)
  (id : str) (now : Z) (st : MemStorage.t Insert) :
  let created := fst (MemStorage.createDocstringGeneration generation id now st) in
  let st' := snd (MemStorage.createDocstringGeneration generation id now st) in
  created = DocstringGeneration.mk generation id (Some now) /\
  MemStorage.getDocstringGeneration id st' = Some created /\
  (forall id', id' <> id ->
               MemStorage.getDocstringGeneration id' st'
               = MemStorage.getDocstringGeneration id' st) /\
  MemStorage.users st' = MemStorage.users st /\
  MemStorage.getDocstringGeneration id (@MemStorage.new Insert) = None.
Proof.
  cbn. repeat split.
  - apply get_set_same.
  - intros id' Hne. apply get_set_other. exact Hne.
Qed.

Lemma sort_length (A : Type) (cmp : A -> A -> Z) (a : list A) :
  List.length (JSArray.sort cmp a) = List.length a.
Proof. apply Permutation_length, sort_Permutation. Qed.

(** X22.  [getRecentGenerations] returns the first generations of the
    stored ones put in order from newest to oldest: together with the
    generations it leaves out, the result is a rearrangement of the stored
    generations in which none is older than one that comes later.  With a
    limit [n >= 0] (10 when none is given) the result has [min n size]
    elements; a negative limit [n] leaves the last [-n] out instead, giving
    [max (size + n) 0] elements. *)
Theorem getRecentGenerations_newest_first (Insert : Type)
  (limit : option Z) (st : MemStorage.t Insert) :
  let stored := JSMap.values (MemStorage.docstringGenerations st) in
  let result := MemStorage.getRecentGenerations limit st in
  let size := Z.of_nat (List.length stored) in
  let n := match limit with Some n => n | None => 10%Z end in
  exists rest,
    Permutation (result ++ rest) stored /\
    StronglySorted MemStorage.notOlder (result ++ rest) /\
    Z.of_nat (List.length result) =
      (if (n <? 0)%Z then Z.max (size + n) 0 else Z.min n size).
Proof.
  intros stored result size n.
  unfold result, MemStorage.getRecentGenerations, JSArray.slice0.
  fold stored. fold n.
  set (sorted := JSArray.sort MemStorage.newerFirst stored).
  assert (Hlen : List.length sorted = List.length stored)
    by apply sort_length.
  rewrite Hlen. fold size.
  set (stop := if (n <? 0)%Z then Z.max (size + n) 0 else Z.min n size).
  exists (skipn (Z.to_nat stop) sorted).
  rewrite firstn_skipn. split; [|split].
  - apply sort_Permutation.
  - apply sort_newerFirst_sorted.
  - rewrite length_firstn, Hlen.
    assert (Hstop : (0 <= stop <= size)%Z).
    { unfold stop, size. destruct (n <? 0)%Z eqn:E.
      - apply Z.ltb_lt in E. lia.
      - apply Z.ltb_ge in E. lia. }
    unfold size in *. lia.
Qed.

(** X23.  A generation created with an unused id and a creation time later
    than that of every stored generation is the first element of
    [getRecentGenerations], for the default limit and for every limit of at
    least 1. *)
Theorem newest_generation_comes_first (Insert : Type) (generation : Insert)
  (id : str) (now : Z) (limit : option Z) (st : MemStorage.t Insert) :
  MemStorage.getDocstringGeneration id st = None ->
  (forall g, In g (JSMap.values (MemStorage.docstringGenerations st)) ->
             (MemStorage.timeOf g < now)%Z) ->
  (forall n, limit = Some n -> (1 <= n)%Z) ->
  let created := fst (MemStorage.createDocstringGeneration generation id now st) in
  let st' := snd (MemStorage.createDocstringGeneration generation id now st) in
  hd_error (MemStorage.getRecentGenerations limit st') = Some created.
Proof.
  intros Hfresh Hold Hlimit. cbn.
  remember (DocstringGeneration.mk generation id (Some now)) as created
    eqn:Hcreated.
  unfold MemStorage.getRecentGenerations, MemStorage.getDocstringGeneration in *.
  cbn [MemStorage.docstringGenerations].
  rewrite (set_fresh _ _ _ _ Hfresh). unfold JSMap.values. rewrite map_app.
  cbn [map snd].
  set (stored := map snd (MemStorage.docstringGenerations st)) in *.
  set (sorted := JSArray.sort MemStorage.newerFirst (stored ++ [created])).
  assert (Hperm : Permutation sorted (stored ++ [created]))
    by apply sort_Permutation.
  assert (Hsorted : StronglySorted MemStorage.notOlder sorted)
    by apply sort_newerFirst_sorted.
  assert (Htime : MemStorage.timeOf created = now).
  { rewrite Hcreated. unfold MemStorage.timeOf. cbn.
    destruct (now =? 0)%Z eqn:E; [apply Z.eqb_eq in E; lia | reflexivity]. }
  assert (Hin : In created sorted).
  { apply (Permutation_in _ (Permutation_sym Hperm)).
    apply in_or_app. right. left. reflexivity. }
  destruct sorted as [|h tl] eqn:Es; [destruct Hin|].
  assert (Hh : h = created).
  { assert (Hhin : In h (stored ++ [created])).
    { apply (Permutation_in _ Hperm). left. reflexivity. }
    apply in_app_or in Hhin. destruct Hhin as [Hhin|[Hhin|[]]];
      [|symmetry; exact Hhin].
    exfalso. specialize (Hold h Hhin).
    destruct Hin as [Hin|Hin]; [subst h; lia|].
    apply StronglySorted_inv in Hsorted. destruct Hsorted as [_ Hall].
    rewrite Forall_forall in Hall. specialize (Hall created Hin).
    unfold MemStorage.notOlder in Hall. lia. }
  subst h.
  unfold JSArray.slice0.
  set (len := Z.of_nat (List.length (created :: tl))).
  assert (Hlen : (1 <= len)%Z) by (unfold len; simpl List.length; lia).
  set (n := match limit with Some n => n | None => 10%Z end).
  assert (Hn : (1 <= n)%Z).
  { unfold n. destruct limit as [m|]; [apply Hlimit; reflexivity | lia]. }
  assert (E : (n <? 0)%Z = false) by (apply Z.ltb_ge; lia).
  rewrite E.
  destruct (Z.to_nat (Z.min n len)) as [|k] eqn:Ek; [lia|].
  reflexivity.
Qed.

Lemma newest_generation_comes_first_witness :
  let st0 : MemStorage.t nat := MemStorage.new in
  let st1 := snd (MemStorage.createDocstringGeneration 1 (lit "a") 100 st0) in
  let st2 := snd (MemStorage.createDocstringGeneration 2 (lit "b") 50 st1) in
  let st3 := snd (MemStorage.createDocstringGeneration 3 (lit "c") 200 st2) in
  MemStorage.getDocstringGeneration (lit "c") st2 = None /\
  hd_error (MemStorage.getRecentGenerations (Some 2%Z) st3)
    = Some (DocstringGeneration.mk 3 (lit "c") (Some 200%Z)) /\
  map DocstringGeneration.insert (MemStorage.getRecentGenerations (Some 2%Z) st3)
    = [3; 1] /\
  map DocstringGeneration.insert (MemStorage.getRecentGenerations (Some (-1)%Z) st3)
    = [3; 1].
Proof.
  intros st0 st1 st2 st3.
  assert (H : MemStorage.getDocstringGeneration (lit "c") st2 = None)
    by reflexivity.
  split; [exact H | split; [|split; reflexivity]].
  apply (newest_generation_comes_first nat 3 (lit "c") 200 (Some 2%Z) st2 H).
  - intros g Hin. vm_compute in Hin.
    destruct Hin as [<-|[<-|[]]]; vm_compute; reflexivity.
  - intros n Hn. injection Hn as <-. lia.
Defined.

(** ** The generation handler *)

